(** * server.js: the session registry and its HTTP handlers

    A shallow embedding of [src/server.js]: the module-level [sessions] Map,
    [initSession] with the four listeners it registers on the messaging
    client, and the four Express handlers ([GET /register], [GET /health],
    [POST /send], [GET /send]).

    The messaging client (whatsapp-web.js), the QR encoder (qrcode) and the
    console are external collaborators.  Their invocations are recorded in
    the world ([calls], [console]); what they answer is an input of the
    model: the outcome of [sendMessage] comes with the request, the outcome
    of [QRCode.toDataURL] with the step that resumes the suspended listener,
    and the client's events arrive as [Emit] steps.  Constructing a client
    throws when its [LocalAuth] strategy refuses the [clientId]; registering
    a listener and calling [initialize] are taken to return normally, and
    what the collaborators throw to be [Error] objects. *)

From stdpp Require Import strings.
From stdpp Require Import base option list gmap countable.

Local Open Scope string_scope.
Local Open Scope list_scope.

(** ** JavaScript values reaching the handlers

    [req.query] and [req.body] deliver strings, and also [undefined] (field
    absent), [null], booleans, numbers, arrays and objects.  A number is
    represented by its ToString rendering, which identifies it up to the
    sign of zero exactly as the Map's SameValueZero comparison does.  An
    array or object is represented by its identity [ref] (the Map compares
    objects by identity) and its ToString rendering [shown].  [JBare] is an
    object that cannot be converted to a primitive value, such as the JSON
    object with a [toString] member that is not a function: ToString throws
    for it. *)

Inductive jsval : Type :=
| JUndefined
| JNull
| JBool (b : bool)
| JNum (shown : string)
| JStr (s : string)
| JObj (ref : nat) (shown : string)
| JBare (ref : nat).

Global Instance jsval_eq_dec : EqDecision jsval.
Proof. solve_decision. Defined.

Definition jsval_code (v : jsval)
  : unit + unit + bool + string + string + nat * string + nat :=
  match v with
  | JUndefined => inl (inl (inl (inl (inl (inl tt)))))
  | JNull => inl (inl (inl (inl (inl (inr tt)))))
  | JBool b => inl (inl (inl (inl (inr b))))
  | JNum n => inl (inl (inl (inr n)))
  | JStr s => inl (inl (inr s))
  | JObj r s => inl (inr (r, s))
  | JBare r => inr r
  end.

Definition jsval_decode (c : unit + unit + bool + string + string + nat * string + nat)
  : jsval :=
  match c with
  | inl (inl (inl (inl (inl (inl _))))) => JUndefined
  | inl (inl (inl (inl (inl (inr _))))) => JNull
  | inl (inl (inl (inl (inr b)))) => JBool b
  | inl (inl (inl (inr n))) => JNum n
  | inl (inl (inr s)) => JStr s
  | inl (inr (r, s)) => JObj r s
  | inr r => JBare r
  end.

Global Instance jsval_countable : Countable jsval.
Proof.
  refine (inj_countable' jsval_code jsval_decode _).
  intros []; reflexivity.
Defined.

(** ToBoolean: what [!x] tests. *)
Definition truthy (v : jsval) : bool :=
  match v with
  | JUndefined | JNull => false
  | JBool b => b
  | JNum n => bool_decide (n ≠ "0") && bool_decide (n ≠ "NaN")
  | JStr s => bool_decide (s ≠ "")
  | JObj _ _ | JBare _ => true
  end.

(** ToString returns for every value but a [JBare]. *)
Definition renders (v : jsval) : bool :=
  match v with
  | JBare _ => false
  | _ => true
  end.

(** ToString: the string a template literal interpolates for a value,
    where it returns one (see [renders] and [template]). *)
Definition ToString (v : jsval) : string :=
  match v with
  | JUndefined => "undefined"
  | JNull => "null"
  | JBool true => "true"
  | JBool false => "false"
  | JNum n => n
  | JStr s => s
  | JObj _ shown => shown
  | JBare _ => ""
  end.

(** An [Error] object, as thrown by the collaborators and the runtime. *)
Record js_error := Error { message : string }.

(** The TypeError of ToString on an object without a primitive value. *)
Definition CannotConvert : js_error := Error "Cannot convert object to primitive value".

(** The error with which [LocalAuth] refuses a [clientId]. *)
Definition InvalidClientId : js_error :=
  Error "Invalid clientId. Only alphanumeric characters, underscores and hyphens are allowed.".

(** The characters of the class [[-_\w]]: letters, digits, underscore
    and hyphen. *)
Definition word_char (a : Ascii.ascii) : bool :=
  let n := Ascii.nat_of_ascii a in
  (Nat.leb 48 n && Nat.leb n 57) || (Nat.leb 65 n && Nat.leb n 90) ||
  (Nat.leb 97 n && Nat.leb n 122) || Nat.eqb n 95 || Nat.eqb n 45.

Fixpoint all_word (s : string) : bool :=
  match s with
  | EmptyString => true
  | String a s' => word_char a && all_word s'
  end.

(** [LocalAuth]'s test of a rendered [clientId] against
    [/^[-_\w]+$/i]. *)
Definition idRegex_test (s : string) : bool :=
  bool_decide (s ≠ "") && all_word s.

(** ** Requests and responses *)

(** The three fields read from [req.query] or [req.body]. *)
Record params := Params { sessionId : jsval; to : jsval; text : jsval }.

Inductive json : Type :=
| JsonNull
| JsonTrue
| JsonString (s : string).

Global Instance json_eq_dec : EqDecision json.
Proof. solve_decision. Defined.

Inductive payload : Type :=
| Json (fields : list (string * json))
| Text (t : string).

Record response := Response { status : nat; body : payload }.

(** [res.json(o)] and [res.send(t)] without a preceding [res.status]. *)
Definition res_json (o : list (string * json)) : response := Response 200 (Json o).
Definition res_send (t : string) : response := Response 200 (Text t).

(** ** The world: registry, session objects, clients, recorded calls *)

(** References to session objects and to client objects. *)
Abbreviation loc := nat (only parsing).
Abbreviation cref := nat (only parsing).

(** The object literal [{ client, ready, qrDataUrl }]. *)
Record session := Session { client : cref; ready : bool; qrDataUrl : option string }.

(** The four arrow functions of [initSession], with the variables each one
    closes over. *)
Inductive listener : Type :=
| QrListener (sess : loc) (sid : jsval)
| ReadyListener (sess : loc) (sid : jsval)
| AuthFailureListener (sess : loc) (sid : jsval)
| DisconnectedListener (sess : loc) (cl : cref) (sid : jsval).

Record client_obj := Client { clientId : jsval; listeners : list (string * listener) }.

(** A [qr] listener suspended at [await QRCode.toDataURL(qr)]. *)
Record qr_task := QrTask { task_session : loc; task_sid : jsval }.

Inductive call : Type :=
| SessionsHas (key : jsval)
| SessionsGet (key : jsval)
| SessionsSet (key : jsval) (l : loc)
| NewClient (c : cref) (id : jsval)
| ClientOn (c : cref) (event : string)
| ClientInitialize (c : cref)
| ClientSendMessage (c : cref) (chatId : string) (txt : jsval)
| QRCodeToDataURL (qr : jsval).

Inductive log_arg : Type :=
| ArgVal (v : jsval)
| ArgErr (e : js_error).

Inductive log_line : Type :=
| ConsoleLog (line : string) (args : list log_arg)
| ConsoleError (line : string) (args : list log_arg).

Record world := World {
  sessions : gmap jsval loc;
  heap : list session;
  clients : list client_obj;
  pending : list qr_task;
  calls : list call;
  console : list log_line
}.

Definition initial : world := World ∅ [] [] [] [] [].

(** ** A state monad over the world, with exceptions *)

Inductive completion (A : Type) : Type :=
| Normal (x : A)
| Throw (e : js_error).
Arguments Normal {A} x.
Arguments Throw {A} e.

Definition M (A : Type) : Type := world → completion A * world.

Global Instance M_ret : MRet M := λ A (x : A) w, (Normal x, w).
Global Instance M_bind : MBind M := λ A B (f : A → M B) (m : M A) w,
  match m w with
  | (Normal x, w') => f x w'
  | (Throw e, w') => (Throw e, w')
  end.

Definition throw {A} (e : js_error) : M A := λ w, (Throw e, w).

(** [try { body } catch (err) { handler err }]. *)
Definition try_catch {A} (body : M A) (handler : js_error → M A) : M A := λ w,
  match body w with
  | (Normal x, w') => (Normal x, w')
  | (Throw e, w') => handler e w'
  end.

(** The interpolation [${v}] of a template literal: ToString, which
    throws a TypeError for an object without a primitive value. *)
Definition template (v : jsval) : M string :=
  if renders v then mret (ToString v) else throw CannotConvert.

Definition record_call (c : call) : M unit := λ w,
  (Normal tt, World (sessions w) (heap w) (clients w) (pending w) (calls w ++ [c]) (console w)).

Definition record_log (l : log_line) : M unit := λ w,
  (Normal tt, World (sessions w) (heap w) (clients w) (pending w) (calls w) (console w ++ [l])).

(** [sessions.has(key)], [sessions.get(key)], [sessions.set(key, l)]. *)
Definition sessions_has (key : jsval) : M bool := λ w,
  (Normal (bool_decide (is_Some (sessions w !! key))),
   World (sessions w) (heap w) (clients w) (pending w) (calls w ++ [SessionsHas key]) (console w)).

Definition sessions_get (key : jsval) : M (option loc) := λ w,
  (Normal (sessions w !! key),
   World (sessions w) (heap w) (clients w) (pending w) (calls w ++ [SessionsGet key]) (console w)).

Definition sessions_set (key : jsval) (l : loc) : M unit := λ w,
  (Normal tt,
   World (<[key := l]> (sessions w)) (heap w) (clients w) (pending w)
     (calls w ++ [SessionsSet key l]) (console w)).

(** Evaluating an object literal allocates a fresh session object. *)
Definition new_object (s : session) : M loc := λ w,
  (Normal (length (heap w)),
   World (sessions w) (heap w ++ [s]) (clients w) (pending w) (calls w) (console w)).

(** Field reads and writes through a reference.  A reference always
    designates a live object: the default [d] is never used in a world
    where [wf] holds. *)
Definition read_field {A} (f : session → A) (d : A) (l : loc) : M A := λ w,
  (Normal (from_option f d (heap w !! l)), w).

Definition write_field (f : session → session) (l : loc) : M unit := λ w,
  (Normal tt,
   World (sessions w) (alter f l (heap w)) (clients w) (pending w) (calls w) (console w)).

Definition set_ready (b : bool) (s : session) : session := Session (client s) b (qrDataUrl s).
Definition set_qrDataUrl (q : option string) (s : session) : session :=
  Session (client s) (ready s) q.

(** [new LocalAuth({ clientId })]: the constructor of whatsapp-web.js's
    strategy tests a truthy [clientId] against its pattern and throws when
    the test fails; the test renders the [clientId] first. *)
Definition new_LocalAuth (clientId : jsval) : M unit :=
  if truthy clientId
  then
    shown ← template clientId;
    if idRegex_test shown then mret tt else throw InvalidClientId
  else mret tt.

(** [new Client({ authStrategy: new LocalAuth({ clientId: id }), ... })]:
    the strategy is constructed first; nothing is constructed or recorded
    when it throws. *)
Definition allocate_client (id : jsval) : M cref := λ w,
  (Normal (length (clients w)),
   World (sessions w) (heap w) (clients w ++ [Client id []]) (pending w)
     (calls w ++ [NewClient (length (clients w)) id]) (console w)).

Definition new_Client (id : jsval) : M cref :=
  _ ← new_LocalAuth id;
  allocate_client id.

Definition add_listener (event : string) (h : listener) (c : client_obj) : client_obj :=
  Client (clientId c) (listeners c ++ [(event, h)]).

(** [client.on(event, h)]. *)
Definition client_on (c : cref) (event : string) (h : listener) : M unit := λ w,
  (Normal tt,
   World (sessions w) (heap w) (alter (add_listener event h) c (clients w)) (pending w)
     (calls w ++ [ClientOn c event]) (console w)).

(** [client.initialize()], not awaited: the call is made and its promise
    dropped. *)
Definition client_initialize (c : cref) : M unit := record_call (ClientInitialize c).

(** The outcome with which the client settles the promise of [sendMessage]. *)
Inductive send_result : Type :=
| Sent
| Rejected (err : js_error).

(** [await client.sendMessage(chatId, text)]: the call is made, and the
    [await] throws when the promise rejects. *)
Definition client_sendMessage (adapter : send_result) (c : cref) (chatId : string) (txt : jsval)
  : M unit := λ w,
  (match adapter with Sent => Normal tt | Rejected err => Throw err end,
   World (sessions w) (heap w) (clients w) (pending w)
     (calls w ++ [ClientSendMessage c chatId txt]) (console w)).

Definition suspend_qr (t : qr_task) : M unit := λ w,
  (Normal tt,
   World (sessions w) (heap w) (clients w) (pending w ++ [t]) (calls w) (console w)).

(** The value of [await p] once [p] has settled. *)
Definition settled {A} (r : A + js_error) : M A :=
  match r with
  | inl x => mret x
  | inr err => throw err
  end.

(** ** initSession *)

Definition initSession (sessionId : jsval) : M (option loc) :=
  known ← sessions_has sessionId;
  if (known : bool) then sessions_get sessionId
  else
    client ← new_Client sessionId;
    session ← new_object (Session client false None);
    _ ← sessions_set sessionId session;
    _ ← client_on client "qr" (QrListener session sessionId);
    _ ← client_on client "ready" (ReadyListener session sessionId);
    _ ← client_on client "auth_failure" (AuthFailureListener session sessionId);
    _ ← client_on client "disconnected" (DisconnectedListener session client sessionId);
    _ ← client_initialize client;
    mret (Some session).

(** ** The listeners registered by initSession *)

Definition session_line (sid : jsval) (rest : string) : string :=
  "Session " +:+ ToString sid +:+ rest.

(** The template literal [`Session ${sid}...`]. *)
Definition session_template (sid : jsval) (rest : string) : M string :=
  shown ← template sid;
  mret ("Session " +:+ shown +:+ rest).

(** What a listener does when the client emits its event with argument
    [arg].  The [qr] listener runs up to its [await] and is suspended. *)
Definition run_listener (h : listener) (arg : jsval) : M unit :=
  match h with
  | QrListener session sid =>
      _ ← record_call (QRCodeToDataURL arg);
      suspend_qr (QrTask session sid)
  | ReadyListener session sid =>
      _ ← write_field (set_ready true) session;
      line ← session_template sid ": client ready";
      record_log (ConsoleLog line [])
  | AuthFailureListener session sid =>
      line ← session_template sid ": auth failure";
      _ ← record_log (ConsoleError line [ArgVal arg]);
      write_field (set_ready false) session
  | DisconnectedListener session client sid =>
      line ← session_template sid ": disconnected";
      _ ← record_log (ConsoleLog line [ArgVal arg]);
      _ ← write_field (set_ready false) session;
      _ ← write_field (set_qrDataUrl None) session;
      client_initialize client
  end.

(** The rest of the [qr] listener, resumed once [QRCode.toDataURL] has
    settled with [r]. *)
Definition resume_qr (t : qr_task) (r : string + js_error) : M unit :=
  try_catch
    (dataUrl ← settled r;
     _ ← write_field (set_qrDataUrl (Some dataUrl)) (task_session t);
     line ← session_template (task_sid t) ": QR generated";
     record_log (ConsoleLog line []))
    (λ err,
     line ← session_template (task_sid t) ": QR generation error";
     record_log (ConsoleError line [ArgErr err])).

Fixpoint run_listeners (hs : list (string * listener)) (event : string) (arg : jsval) : M unit :=
  match hs with
  | [] => mret tt
  | (e, h) :: hs' =>
      _ ← (if bool_decide (e = event) then run_listener h arg else mret tt);
      run_listeners hs' event arg
  end.

(** The client [c] emits [event]: its listeners for that event run in
    registration order. *)
Definition emit (c : cref) (event : string) (arg : jsval) : M unit := λ w,
  match clients w !! c with
  | Some cl => run_listeners (listeners cl) event arg w
  | None => (Normal tt, w)
  end.

(** The [k]-th suspended [qr] listener is resumed with the encoder's outcome. *)
Definition settle_qr (k : nat) (r : string + js_error) : M unit := λ w,
  match pending w !! k with
  | Some t =>
      resume_qr t r
        (World (sessions w) (heap w) (clients w) (delete k (pending w)) (calls w) (console w))
  | None => (Normal tt, w)
  end.

(** ** The HTTP handlers *)

Definition json_of_qrDataUrl (q : option string) : json :=
  match q with
  | Some dataUrl => JsonString dataUrl
  | None => JsonNull
  end.

Definition TypeError : js_error := Error "Cannot read properties of undefined".

Definition get_register (query : params) : M response :=
  let sessionId := sessionId query in
  if negb (truthy sessionId)
  then mret (Response 400 (Json [("error", JsonString "Missing sessionId")]))
  else
    session ← initSession sessionId;
    match session with
    | Some l =>
        q ← read_field qrDataUrl None l;
        mret (res_json [("qrDataUrl", json_of_qrDataUrl q)])
    | None => throw TypeError
    end.

Definition get_health (query : params) : M response :=
  let sessionId := sessionId query in
  if negb (truthy sessionId)
  then mret (Response 400 (Json [("error", JsonString "Missing sessionId")]))
  else
    session ← sessions_get sessionId;
    match session with
    | None => mret (res_json [("status", JsonString "initializing")])
    | Some l =>
        r ← read_field ready false l;
        mret (res_json [("status", JsonString (if (r : bool) then "ready" else "initializing"))])
    end.

Definition post_send (adapter : send_result) (body : params) : M response :=
  let '(Params sessionId to text) := body in
  if negb (truthy sessionId) || negb (truthy to) || negb (truthy text)
  then mret (Response 400 (Json [("error", JsonString "Missing sessionId, to, or text")]))
  else
    session ← sessions_get sessionId;
    match session with
    | None => mret (Response 503 (Json [("error", JsonString "Session not ready")]))
    | Some l =>
        r ← read_field ready false l;
        if negb r
        then mret (Response 503 (Json [("error", JsonString "Session not ready")]))
        else
          try_catch
            (shown ← template to;
             let chatId := shown +:+ "@c.us" in
             c ← read_field client 0 l;
             _ ← client_sendMessage adapter c chatId text;
             mret (res_json [("success", JsonTrue)]))
            (λ err,
             line ← session_template sessionId " send error:";
             _ ← record_log (ConsoleError line [ArgErr err]);
             mret (Response 500 (Json [("error", JsonString (message err))])))
    end.

Definition get_send (adapter : send_result) (query : params) : M response :=
  let '(Params sessionId to text) := query in
  if negb (truthy sessionId) || negb (truthy to) || negb (truthy text)
  then mret (Response 400 (Text "❌ Missing sessionId, to, or text"))
  else
    session ← sessions_get sessionId;
    match session with
    | None => mret (Response 503 (Text "⏳ Session not ready"))
    | Some l =>
        r ← read_field ready false l;
        if negb r
        then mret (Response 503 (Text "⏳ Session not ready"))
        else
          try_catch
            (shown ← template to;
             let chatId := shown +:+ "@c.us" in
             c ← read_field client 0 l;
             _ ← client_sendMessage adapter c chatId text;
             mret (res_send "✅ Message sent successfully!"))
            (λ err,
             _ ← record_log (ConsoleError "Send error:" [ArgErr err]);
             mret (Response 500 (Text "❌ Failed to send message")))
    end.

(** ** Runs of the server *)

Inductive request : Type :=
| GetRegister (query : params)
| GetHealth (query : params)
| PostSend (body : params)
| GetSend (query : params).

Definition handle (adapter : send_result) (r : request) : M response :=
  match r with
  | GetRegister query => get_register query
  | GetHealth query => get_health query
  | PostSend body => post_send adapter body
  | GetSend query => get_send adapter query
  end.

(** What the event loop can run next: a request (with the outcome the
    client gives its [sendMessage], should the handler call it), an event
    of a client, or the resumption of a suspended [qr] listener. *)
Inductive input : Type :=
| Http (r : request) (adapter : send_result)
| Emit (c : cref) (event : string) (arg : jsval)
| QrSettled (k : nat) (r : string + js_error).

Definition step (i : input) (w : world) : world :=
  match i with
  | Http r adapter => snd (handle adapter r w)
  | Emit c event arg => snd (emit c event arg w)
  | QrSettled k r => snd (settle_qr k r w)
  end.

Definition run (inputs : list input) (w : world) : world := foldl (flip step) w inputs.

Inductive reachable : world → Prop :=
| reachable_initial : reachable initial
| reachable_step i w : reachable w → reachable (step i w).

(** The session a registry key designates, if any. *)
Definition session_of (w : world) (key : jsval) : option session :=
  sessions w !! key ≫= λ l, heap w !! l.

(** The session a registry key designates, if there is one and it is ready. *)
Definition ready_session (w : world) (key : jsval) : option session :=
  s ← session_of w key; if ready s then Some s else None.

(** All three fields of a Send request pass the handler's validation. *)
Definition valid (p : params) : bool :=
  truthy (sessionId p) && truthy (to p) && truthy (text p).

(** ** Vocabulary of the specification *)

(** A required field is missing when the request does not carry it. *)
Definition missing (v : jsval) : Prop := v = JUndefined.

(** The client constructor accepts the identifier: a truthy identifier
    has a rendering that passes [LocalAuth]'s test. *)
Definition accepted (id : jsval) : bool :=
  negb (truthy id) || (renders id && idRegex_test (ToString id)).

(** What the [try] block of a Send handler throws, if it throws: the
    TypeError of rendering [to], or else the adapter's rejection. *)
Definition try_failure (adapter : send_result) (to : jsval) : option js_error :=
  if renders to
  then match adapter with Sent => None | Rejected err => Some err end
  else Some CannotConvert.

(** The adapter call of the [try] block for the session [s]: none when
    rendering [to] throws. *)
Definition try_calls (s : session) (p : params) : list call :=
  if renders (to p)
  then [ClientSendMessage (client s) (ToString (to p) +:+ "@c.us") (text p)]
  else [].

(** The error the client constructor throws for an identifier it does
    not accept. *)
Definition refusal (id : jsval) : js_error :=
  if renders id then InvalidClientId else CannotConvert.

(** The client object as [initSession] leaves it: scoped to [id], with the
    four listeners closed over the session [l] and the client [c] itself. *)
Definition wired (l : loc) (c : cref) (id : jsval) : client_obj :=
  Client id
    [ ("qr", QrListener l id);
      ("ready", ReadyListener l id);
      ("auth_failure", AuthFailureListener l id);
      ("disconnected", DisconnectedListener l c id) ].

(** The sessions ever stored in the registry, in order of creation. *)
Definition created (cs : list call) : list (jsval * loc) :=
  omap (λ c, match c with SessionsSet key l => Some (key, l) | _ => None end) cs.

(** The adapter invocations among the recorded calls. *)
Definition sends (cs : list call) : list (cref * string * jsval) :=
  omap (λ c, match c with ClientSendMessage c chatId txt => Some (c, chatId, txt) | _ => None end) cs.

(** The registry interactions among the recorded calls. *)
Definition registry_calls (cs : list call) : list call :=
  omap (λ c, match c with
             | SessionsHas _ | SessionsGet _ | SessionsSet _ _ => Some c
             | _ => None
             end) cs.

(** The fixed domain suffix of recipient identifiers. *)
Definition suffix : string := "@c.us".

(** The world [w] after further calls [cs] and console lines [ls], and
    nothing else. *)
Definition logged (w : world) (cs : list call) (ls : list log_line) : world :=
  World (sessions w) (heap w) (clients w) (pending w) (calls w ++ cs) (console w ++ ls).

(** The mutable state of the server: registry, session objects, clients
    and suspended listeners. *)
Definition store (w : world) : gmap jsval loc * list session * list client_obj * list qr_task :=
  (sessions w, heap w, clients w, pending w).

(** Two worlds that differ at most in what was written to the console. *)
Definition same_effects (w1 w2 : world) : Prop :=
  store w1 = store w2 ∧ calls w1 = calls w2.

(** [msg] can be read off a response body: it is the value of a field of
    the structured data, or occurs in the text. *)
Definition mentions (msg : string) (b : payload) : bool :=
  match b with
  | Json fields => bool_decide (JsonString msg ∈ fields.*2)
  | Text t => bool_decide (is_Some (String.index 0 msg t))
  end.

(** The outcomes of Send in the specification's table. *)
Inductive send_outcome : Type :=
| ValidationRejection
| NotReadyRejection
| Acknowledgement
| AdapterFailure (underlying : string).

(** A response presents an outcome of Send; an adapter failure is
    presented with its underlying message. *)
Definition presents (r : completion response) (o : send_outcome) : Prop :=
  match r, o with
  | Normal r, ValidationRejection => status r = 400
  | Normal r, NotReadyRejection => status r = 503
  | Normal r, Acknowledgement => status r = 200
  | Normal r, AdapterFailure msg => status r = 500 ∧ mentions msg (body r) = true
  | Throw _, _ => False
  end.

(** The link form presents every outcome the command form presents. *)
Definition link_form_same_semantics : Prop :=
  ∀ adapter p w o,
    presents (fst (post_send adapter p w)) o → presents (fst (get_send adapter p w)) o.

(** The plain text with which the link form answers, by status class. *)
Definition plain_text (r : response) : response :=
  Response (status r)
    (Text (if decide (status r = 400) then "❌ Missing sessionId, to, or text"
           else if decide (status r = 503) then "⏳ Session not ready"
           else if decide (status r = 500) then "❌ Failed to send message"
           else "✅ Message sent successfully!")).

(** [initSession] creates and stores a session for every identifier the
    registry does not hold. *)
Definition creates_for_every_unseen : Prop :=
  ∀ id w, sessions w !! id = None →
          ∃ l w', initSession id w = (Normal (Some l), w') ∧ sessions w' !! id = Some l.

(** An empty string read as an absent field. *)
Definition blank_as_absent (v : jsval) : jsval :=
  if decide (v = JStr "") then JUndefined else v.

Definition blank_params (p : params) : params :=
  Params (blank_as_absent (sessionId p)) (blank_as_absent (to p)) (blank_as_absent (text p)).

Definition blank_request (r : request) : request :=
  match r with
  | GetRegister q => GetRegister (blank_params q)
  | GetHealth q => GetHealth (blank_params q)
  | PostSend b => PostSend (blank_params b)
  | GetSend q => GetSend (blank_params q)
  end.

(** A required field of the request is the empty string. *)
Definition has_empty_required (r : request) : Prop :=
  match r with
  | GetRegister q | GetHealth q => sessionId q = JStr ""
  | PostSend p | GetSend p => sessionId p = JStr "" ∨ to p = JStr "" ∨ text p = JStr ""
  end.

(** ** Well-formed worlds

    What holds of every world the server can be in: session objects and
    clients are created together, every registry entry designates a live
    session whose client carries the four listeners of [initSession], and
    the registry holds exactly the sessions ever created. *)
Record wf (w : world) : Prop := WF {
  wf_length : length (heap w) = length (clients w);
  wf_sessions : ∀ id l, sessions w !! id = Some l →
    (∃ s, heap w !! l = Some s ∧ client s = l) ∧ clients w !! l = Some (wired l l id);
  wf_clients : ∀ c cl, clients w !! c = Some cl →
    cl = wired c c (clientId cl) ∧ sessions w !! clientId cl = Some c;
  wf_pending : ∀ k t, pending w !! k = Some t →
    sessions w !! task_sid t = Some (task_session t);
  wf_truthy : ∀ id l, sessions w !! id = Some l → truthy id = true;
  wf_renders : ∀ id l, sessions w !! id = Some l → renders id = true;
  wf_created : ∀ id l, (id, l) ∈ created (calls w) ↔ sessions w !! id = Some l;
  wf_created_once : NoDup (created (calls w)).*1
}.

(** [w'] keeps every registry entry of [w] and every session object of
    [w], with the client handle it had. *)
Definition keeps (w w' : world) : Prop :=
  (∀ id l, sessions w !! id = Some l → sessions w' !! id = Some l) ∧
  (∀ l s, heap w !! l = Some s → ∃ s', heap w' !! l = Some s' ∧ client s' = client s).

(** A computation keeps registry entries and client handles. *)
Definition keeping {A} (m : M A) : Prop := ∀ w, keeps w (snd (m w)).

(** ** The scenario of the specification *)

Definition s1 : params := Params (JStr "s1") (JStr "15551234567") (JStr "hi").

Definition scenario : list input :=
  [ Http (GetRegister s1) Sent;
    Emit 0 "qr" (JStr "TOKEN1");
    QrSettled 0 (inl "data:image/png;base64,AAAA");
    Emit 0 "ready" JUndefined ].

Definition paired : world := run scenario initial.

(** The same session while its first [qr] listener is still suspended. *)
Definition awaiting : world :=
  run [Http (GetRegister s1) Sent; Emit 0 "qr" (JStr "TOKEN1")] initial.

(** The scenario followed by the registration of a second identifier. *)
Definition two_sessions : world :=
  run (scenario ++ [Http (GetRegister (Params (JStr "s2") JUndefined JUndefined)) Sent]) initial.

(** ** Vocabulary of the further properties *)

(** The fields the handler of a request requires all pass its test. *)
Definition required (r : request) : bool :=
  match r with
  | GetRegister q | GetHealth q => truthy (sessionId q)
  | PostSend p | GetSend p => valid p
  end.

(** The request is a Register for an identifier the registry does not
    hold yet. *)
Definition registers_new (r : request) (w : world) : Prop :=
  ∃ q, r = GetRegister q ∧ truthy (sessionId q) = true ∧ sessions w !! sessionId q = None.

(** The calls a step makes in a world [w] without creating a session:
    registry reads, encoder requests, and [initialize] or [sendMessage] on
    a client of [w], the latter with a recipient made of a present [to]
    and the suffix, and a present text. *)
Definition routine (w : world) (c : call) : Prop :=
  match c with
  | SessionsHas _ | SessionsGet _ | QRCodeToDataURL _ => True
  | ClientInitialize c => c < length (clients w)
  | ClientSendMessage c chatId txt =>
      c < length (clients w) ∧ truthy txt = true ∧
      ∃ to, truthy to = true ∧ chatId = ToString to +:+ suffix
  | SessionsSet _ _ | NewClient _ _ | ClientOn _ _ => False
  end.

(** The calls of [initSession] when it creates the session [l] with the
    client [c] for [id]. *)
Definition creation (id : jsval) (l : loc) (c : cref) : list call :=
  [ SessionsHas id; NewClient c id; SessionsSet id l;
    ClientOn c "qr"; ClientOn c "ready"; ClientOn c "auth_failure";
    ClientOn c "disconnected"; ClientInitialize c ].

(** * Proofs *)

(** ** Equations of the operations *)

Ltac unfold_M :=
  unfold get_register, get_health, post_send, get_send, initSession, resume_qr,
    run_listener, client_initialize, settled, try_catch, throw,
    new_Client, mbind, M_bind, mret, M_ret;
  unfold sessions_has, sessions_get, sessions_set, new_object, allocate_client, client_on,
    client_sendMessage, suspend_qr, read_field, write_field, record_call, record_log;
  cbn beta iota delta [fst snd sessions heap clients pending calls console].

Ltac fields := cbn beta iota delta [fst snd sessions heap clients pending calls console].

Lemma alter_snoc {A} (f : A → A) (l : list A) (x : A) :
  alter f (length l) (l ++ [x]) = l ++ [f x].
Proof.
  replace (length l) with (length l + 0) by lia.
  by rewrite alter_app_r.
Qed.

Lemma template_renders v w :
  renders v = true → template v w = (Normal (ToString v), w).
Proof. intros Hv. unfold template. by rewrite Hv. Qed.

Lemma template_bare v w :
  renders v = false → template v w = (Throw CannotConvert, w).
Proof. intros Hv. unfold template. by rewrite Hv. Qed.

Lemma session_template_renders sid rest w :
  renders sid = true → session_template sid rest w = (Normal (session_line sid rest), w).
Proof.
  intros Hv. unfold session_template, mbind, M_bind. by rewrite template_renders.
Qed.

Lemma session_template_bare sid rest w :
  renders sid = false → session_template sid rest w = (Throw CannotConvert, w).
Proof.
  intros Hv. unfold session_template, mbind, M_bind. by rewrite template_bare.
Qed.

Lemma new_LocalAuth_accepted id w :
  accepted id = true → new_LocalAuth id w = (Normal tt, w).
Proof.
  unfold accepted, new_LocalAuth. destruct (truthy id); cbn; [|done].
  intros [Hr Ht]%andb_prop. unfold mbind, M_bind. rewrite template_renders by done.
  by rewrite Ht.
Qed.

Lemma new_LocalAuth_refused id w :
  accepted id = false → new_LocalAuth id w = (Throw (refusal id), w).
Proof.
  unfold accepted, new_LocalAuth, refusal. destruct (truthy id); cbn; [|done].
  unfold mbind, M_bind. destruct (renders id) eqn:Hr; cbn.
  - intros Ht. rewrite template_renders by done. by rewrite Ht.
  - intros _. by rewrite template_bare.
Qed.

Lemma accepted_renders id : truthy id = true → accepted id = true → renders id = true.
Proof. unfold accepted. intros ->. cbn. by intros [? _]%andb_prop. Qed.

Lemma initSession_known id l w :
  sessions w !! id = Some l →
  initSession id w = (Normal (Some l), logged w [SessionsHas id; SessionsGet id] []).
Proof.
  intros Hl. unfold_M. rewrite Hl.
  rewrite bool_decide_eq_true_2 by eauto.
  fields. unfold logged. rewrite <- app_assoc, Hl, app_nil_r. reflexivity.
Qed.

Lemma initSession_fresh id w :
  sessions w !! id = None →
  accepted id = true →
  initSession id w =
    (Normal (Some (length (heap w))),
     World (<[id := length (heap w)]> (sessions w))
       (heap w ++ [Session (length (clients w)) false None])
       (clients w ++ [wired (length (heap w)) (length (clients w)) id])
       (pending w)
       (calls w ++
          [ SessionsHas id; NewClient (length (clients w)) id;
            SessionsSet id (length (heap w));
            ClientOn (length (clients w)) "qr"; ClientOn (length (clients w)) "ready";
            ClientOn (length (clients w)) "auth_failure";
            ClientOn (length (clients w)) "disconnected";
            ClientInitialize (length (clients w)) ])
       (console w)).
Proof.
  intros Hl Hid. unfold_M. rewrite Hl.
  rewrite bool_decide_eq_false_2 by (intros [? ?]; done).
  rewrite new_LocalAuth_accepted by done.
  fields. rewrite !alter_snoc. rewrite <- !app_assoc. reflexivity.
Qed.

Lemma initSession_refused id w :
  sessions w !! id = None →
  accepted id = false →
  initSession id w = (Throw (refusal id), logged w [SessionsHas id] []).
Proof.
  intros Hl Hid. unfold_M. rewrite Hl.
  rewrite bool_decide_eq_false_2 by (intros [? ?]; done).
  rewrite new_LocalAuth_refused by done. unfold logged. by rewrite app_nil_r.
Qed.

(** ** Well-formedness is invariant *)

Lemma created_app cs1 cs2 : created (cs1 ++ cs2) = created cs1 ++ created cs2.
Proof. apply omap_app. Qed.

Lemma wf_initial : wf initial.
Proof.
  split; cbn; try done.
  - intros id l. rewrite elem_of_nil. naive_solver.
  - constructor.
Qed.

(** Writing [ready] or [qrDataUrl], recording calls other than
    [sessions.set], logging, and suspending or discarding listeners of
    registered sessions all preserve well-formedness. *)
Lemma wf_update w h ps cs ls :
  wf w →
  length h = length (heap w) →
  (∀ l s, heap w !! l = Some s → ∃ s', h !! l = Some s' ∧ client s' = client s) →
  (∀ k t, ps !! k = Some t → sessions w !! task_sid t = Some (task_session t)) →
  created cs = created (calls w) →
  wf (World (sessions w) h (clients w) ps cs ls).
Proof.
  intros [Hlen Hs Hc Hp Ht Hrn Hcr Hnd] Hh Hf Hps Hcs.
  split; fields; try done.
  - congruence.
  - intros id l Hl. destruct (Hs id l Hl) as [(s & Hsl & Hcl) Hw]. split; [|done].
    destruct (Hf l s Hsl) as (s' & Hs' & Hcl'). exists s'. split; [done|congruence].
  - intros id l. rewrite Hcs. apply Hcr.
  - by rewrite Hcs.
Qed.

Lemma alter_keeps_client f l (h : list session) :
  (∀ s, client (f s) = client s) →
  ∀ l' s, h !! l' = Some s → ∃ s', alter f l h !! l' = Some s' ∧ client s' = client s.
Proof.
  intros Hf l' s Hs. destruct (decide (l = l')) as [->|Hne].
  - exists (f s). by rewrite list_lookup_alter_eq, Hs.
  - exists s. by rewrite list_lookup_alter_ne.
Qed.

Lemma created_snoc cs c :
  (∀ key l, c ≠ SessionsSet key l) → created (cs ++ [c]) = created cs.
Proof.
  intros Hc. rewrite created_app. destruct c; cbn; rewrite ?app_nil_r; try done.
  by destruct (Hc key l).
Qed.

Lemma wf_logged w cs ls : wf w → created cs = [] → wf (logged w cs ls).
Proof.
  intros Hw Hcs. apply wf_update; eauto.
  - apply (wf_pending _ Hw).
  - by rewrite created_app, Hcs, app_nil_r.
Qed.

Lemma wf_initSession id w : wf w → truthy id = true → wf (snd (initSession id w)).
Proof.
  intros Hw Hid. destruct (sessions w !! id) as [l|] eqn:Hl.
  - rewrite (initSession_known _ _ _ Hl). by apply wf_logged.
  - destruct (accepted id) eqn:Hacc;
      [|rewrite (initSession_refused _ _ Hl Hacc); by apply wf_logged].
    rewrite (initSession_fresh _ _ Hl Hacc). fields.
    destruct Hw as [Hlen Hs Hc Hp Ht Hrn Hcr Hnd].
    assert (Hnew : ∀ l', (id, l') ∉ created (calls w)).
    { intros l' Hin. apply Hcr in Hin. congruence. }
    split; fields.
    + rewrite !length_app. cbn. lia.
    + intros id' l'. rewrite lookup_insert. case_decide as Hid'.
      * intros [= <-]. subst id'. split.
        -- eexists. rewrite lookup_app_r, Nat.sub_diag by lia. split; [done|]. cbn. done.
        -- rewrite Hlen at 1. rewrite lookup_app_r, Nat.sub_diag by lia. cbn. by rewrite Hlen.
      * intros Hl'. destruct (Hs id' l' Hl') as [(s & Hsl & Hcl) Hw'].
        split; [exists s|]; rewrite lookup_app_l; eauto using lookup_lt_Some.
    + intros c cl. rewrite lookup_app. destruct (clients w !! c) as [cl'|] eqn:Hcc.
      * intros [= <-]. destruct (Hc c cl' Hcc) as [Hwd Hsc]. split; [done|].
        rewrite lookup_insert_ne; [done|]. congruence.
      * apply lookup_ge_None in Hcc.
        destruct (c - length (clients w)) as [|n] eqn:Hn; cbn; [|done].
        intros [= <-]. cbn. assert (c = length (clients w)) as -> by lia.
        rewrite Hlen. split; [done|]. by rewrite lookup_insert_eq.
    + intros k t Hk. specialize (Hp k t Hk). rewrite lookup_insert_ne; [done|]. congruence.
    + intros id' l'. rewrite lookup_insert. case_decide; [by intros _; subst id'|]. eauto.
    + intros id' l'. rewrite lookup_insert.
      case_decide; [intros _; subst id'; by apply accepted_renders|]. eauto.
    + intros id' l'. rewrite created_app. cbn. rewrite elem_of_app, list_elem_of_singleton.
      rewrite lookup_insert. case_decide as Hid'.
      * subst id'. split; [intros [Hin|[= <-]]; [by apply Hnew in Hin|done]|].
        intros [= <-]. by right.
      * rewrite Hcr. split; [by intros [?|[= ? ?]]|by left].
    + rewrite created_app, fmap_app. cbn. apply list.NoDup_app. split; [done|]. split.
      * intros x Hx [= ->]%list_elem_of_singleton.
        apply list_elem_of_fmap in Hx as [[id' l'] [Heq Hin]]. cbn in Heq. subst id'.
        by apply Hnew in Hin.
      * apply list.NoDup_singleton.
Qed.

(** ** Equations of the handlers *)

Lemma logged_logged w cs1 ls1 cs2 ls2 :
  logged (logged w cs1 ls1) cs2 ls2 = logged w (cs1 ++ cs2) (ls1 ++ ls2).
Proof. unfold logged. fields. by rewrite !app_assoc. Qed.

Lemma logged_nil w : logged w [] [] = w.
Proof. destruct w. unfold logged. fields. by rewrite !app_nil_r. Qed.

Lemma get_register_missing q w :
  truthy (sessionId q) = false →
  get_register q w = (Normal (Response 400 (Json [("error", JsonString "Missing sessionId")])), w).
Proof. intros Hq. unfold get_register. by rewrite Hq. Qed.

Lemma get_register_known q w l :
  truthy (sessionId q) = true →
  sessions w !! sessionId q = Some l →
  get_register q w =
    (Normal (res_json [("qrDataUrl", json_of_qrDataUrl (heap w !! l ≫= qrDataUrl))]),
     logged w [SessionsHas (sessionId q); SessionsGet (sessionId q)] []).
Proof.
  intros Hq Hl. unfold get_register. rewrite Hq. cbn [negb].
  unfold mbind at 1, M_bind at 1. rewrite (initSession_known _ _ _ Hl).
  unfold_M. unfold logged. fields. by destruct (heap w !! l).
Qed.

Lemma get_register_fresh q w :
  truthy (sessionId q) = true →
  sessions w !! sessionId q = None →
  accepted (sessionId q) = true →
  get_register q w =
    (Normal (res_json [("qrDataUrl", JsonNull)]), snd (initSession (sessionId q) w)).
Proof.
  intros Hq Hl Hacc. unfold get_register. rewrite Hq. cbn [negb].
  unfold mbind at 1, M_bind at 1. rewrite (initSession_fresh _ _ Hl Hacc).
  unfold_M. by rewrite lookup_app_r, Nat.sub_diag by lia.
Qed.

Lemma get_register_refused q w :
  truthy (sessionId q) = true →
  sessions w !! sessionId q = None →
  accepted (sessionId q) = false →
  get_register q w =
    (Throw (refusal (sessionId q)), logged w [SessionsHas (sessionId q)] []).
Proof.
  intros Hq Hl Hacc. unfold get_register. rewrite Hq. cbn [negb].
  unfold mbind at 1, M_bind at 1. by rewrite (initSession_refused _ _ Hl Hacc).
Qed.

Lemma get_health_missing q w :
  truthy (sessionId q) = false →
  get_health q w = (Normal (Response 400 (Json [("error", JsonString "Missing sessionId")])), w).
Proof. intros Hq. unfold get_health. by rewrite Hq. Qed.

Lemma get_health_status q w :
  truthy (sessionId q) = true →
  get_health q w =
    (Normal (res_json [("status",
       JsonString (match ready_session w (sessionId q) with
                   | Some _ => "ready"
                   | None => "initializing"
                   end))]),
     logged w [SessionsGet (sessionId q)] []).
Proof.
  intros Hq. unfold get_health. rewrite Hq. cbn [negb]. unfold_M.
  unfold ready_session, session_of, logged. rewrite app_nil_r.
  destruct (sessions w !! sessionId q) as [l|]; cbn; [|done].
  destruct (heap w !! l) as [s|]; cbn; [|done]. by destruct (ready s).
Qed.

Lemma valid_false p :
  valid p = false ↔
  truthy (sessionId p) = false ∨ truthy (to p) = false ∨ truthy (text p) = false.
Proof.
  unfold valid.
  destruct (truthy (sessionId p)), (truthy (to p)), (truthy (text p)); cbn;
    (split; [auto|intros [?|[?|?]]; done]).
Qed.

Lemma validation i t x :
  negb (truthy i) || negb (truthy t) || negb (truthy x) = negb (valid (Params i t x)).
Proof. unfold valid. cbn. by destruct (truthy i), (truthy t), (truthy x). Qed.

Lemma post_send_invalid adapter p w :
  valid p = false →
  post_send adapter p w =
    (Normal (Response 400 (Json [("error", JsonString "Missing sessionId, to, or text")])), w).
Proof. intros Hp. destruct p as [i t x]. unfold post_send. by rewrite validation, Hp. Qed.

Lemma get_send_invalid adapter p w :
  valid p = false →
  get_send adapter p w = (Normal (Response 400 (Text "❌ Missing sessionId, to, or text")), w).
Proof. intros Hp. destruct p as [i t x]. unfold get_send. by rewrite validation, Hp. Qed.

Lemma post_send_not_ready adapter p w :
  valid p = true →
  ready_session w (sessionId p) = None →
  post_send adapter p w =
    (Normal (Response 503 (Json [("error", JsonString "Session not ready")])),
     logged w [SessionsGet (sessionId p)] []).
Proof.
  intros Hp Hr. destruct p as [i t x]. unfold post_send.
  rewrite validation, Hp. cbn [negb sessionId] in *. unfold_M.
  unfold ready_session, session_of, logged in *. rewrite app_nil_r.
  destruct (sessions w !! i) as [l|]; cbn in *; [|done].
  destruct (heap w !! l) as [s|]; cbn in *; [|done]. by destruct (ready s).
Qed.

Lemma get_send_not_ready adapter p w :
  valid p = true →
  ready_session w (sessionId p) = None →
  get_send adapter p w =
    (Normal (Response 503 (Text "⏳ Session not ready")), logged w [SessionsGet (sessionId p)] []).
Proof.
  intros Hp Hr. destruct p as [i t x]. unfold get_send.
  rewrite validation, Hp. cbn [negb sessionId] in *. unfold_M.
  unfold ready_session, session_of, logged in *. rewrite app_nil_r.
  destruct (sessions w !! i) as [l|]; cbn in *; [|done].
  destruct (heap w !! l) as [s|]; cbn in *; [|done]. by destruct (ready s).
Qed.

Lemma post_send_ready adapter p w s :
  valid p = true →
  ready_session w (sessionId p) = Some s →
  post_send adapter p w =
    match try_failure adapter (to p) with
    | None =>
        (Normal (res_json [("success", JsonTrue)]),
         logged w (SessionsGet (sessionId p) :: try_calls s p) [])
    | Some err =>
        if renders (sessionId p)
        then (Normal (Response 500 (Json [("error", JsonString (message err))])),
              logged w (SessionsGet (sessionId p) :: try_calls s p)
                [ConsoleError (session_line (sessionId p) " send error:") [ArgErr err]])
        else (Throw CannotConvert, logged w (SessionsGet (sessionId p) :: try_calls s p) [])
    end.
Proof.
  intros Hp Hr. destruct p as [i t x]. unfold post_send.
  rewrite validation, Hp. cbn [negb sessionId to text] in *.
  unfold try_failure, try_calls. cbn [to text].
  unfold mbind at 1, M_bind at 1, sessions_get. fields.
  unfold ready_session, session_of, logged in *.
  destruct (sessions w !! i) as [l|]; cbn in *; [|done].
  unfold mbind at 1, M_bind at 1, read_field at 1. fields.
  destruct (heap w !! l) as [s'|] eqn:Hh; cbn in *; [|done].
  destruct (ready s') eqn:Hs'; [|done]. injection Hr as ->. cbn [negb].
  unfold try_catch. unfold mbind at 1, M_bind at 1.
  destruct (renders t) eqn:Ht.
  - rewrite template_renders by done. unfold_M. rewrite Hh. cbn [from_option].
    destruct adapter as [|err]; fields.
    + by rewrite <- app_assoc, app_nil_r.
    + destruct (renders i) eqn:Hi.
      * rewrite session_template_renders by done. fields. by rewrite <- app_assoc.
      * rewrite session_template_bare by done. by rewrite <- app_assoc, app_nil_r.
  - rewrite template_bare by done. unfold_M.
    destruct (renders i) eqn:Hi.
    + rewrite session_template_renders by done. fields. reflexivity.
    + rewrite session_template_bare by done. by rewrite app_nil_r.
Qed.

Lemma get_send_ready adapter p w s :
  valid p = true →
  ready_session w (sessionId p) = Some s →
  get_send adapter p w =
    match try_failure adapter (to p) with
    | None =>
        (Normal (res_send "✅ Message sent successfully!"),
         logged w (SessionsGet (sessionId p) :: try_calls s p) [])
    | Some err =>
        (Normal (Response 500 (Text "❌ Failed to send message")),
         logged w (SessionsGet (sessionId p) :: try_calls s p)
           [ConsoleError "Send error:" [ArgErr err]])
    end.
Proof.
  intros Hp Hr. destruct p as [i t x]. unfold get_send.
  rewrite validation, Hp. cbn [negb sessionId to text] in *.
  unfold try_failure, try_calls. cbn [to text].
  unfold mbind at 1, M_bind at 1, sessions_get. fields.
  unfold ready_session, session_of, logged in *.
  destruct (sessions w !! i) as [l|]; cbn in *; [|done].
  unfold mbind at 1, M_bind at 1, read_field at 1. fields.
  destruct (heap w !! l) as [s'|] eqn:Hh; cbn in *; [|done].
  destruct (ready s') eqn:Hs'; [|done]. injection Hr as ->. cbn [negb].
  unfold try_catch. unfold mbind at 1, M_bind at 1.
  destruct (renders t) eqn:Ht.
  - rewrite template_renders by done. unfold_M. rewrite Hh. cbn [from_option].
    destruct adapter as [|err]; fields.
    + by rewrite <- app_assoc, app_nil_r.
    + by rewrite <- app_assoc.
  - rewrite template_bare by done. unfold_M. reflexivity.
Qed.

(** The effects of a Send on a ready session, whatever it answers. *)
Lemma post_send_ready_logged adapter p w s :
  valid p = true →
  ready_session w (sessionId p) = Some s →
  ∃ r ls,
    post_send adapter p w = (r, logged w (SessionsGet (sessionId p) :: try_calls s p) ls).
Proof.
  intros Hp Hr. rewrite (post_send_ready _ _ _ s) by done.
  destruct (try_failure adapter (to p)); [destruct (renders (sessionId p))|]; by do 2 eexists.
Qed.

Lemma get_send_ready_logged adapter p w s :
  valid p = true →
  ready_session w (sessionId p) = Some s →
  ∃ r ls,
    get_send adapter p w = (r, logged w (SessionsGet (sessionId p) :: try_calls s p) ls).
Proof.
  intros Hp Hr. rewrite (get_send_ready _ _ _ s) by done.
  destruct (try_failure adapter (to p)); by do 2 eexists.
Qed.

Lemma created_try_calls key s p : created (SessionsGet key :: try_calls s p) = [].
Proof. unfold try_calls. by destruct (renders (to p)). Qed.

(** ** Equations of the listeners *)

Lemma alter_alter {A} (f g : A → A) (l : list A) i :
  alter f i (alter g i l) = alter (f ∘ g) i l.
Proof. revert i. induction l as [|x l IH]; intros [|i]; cbn; f_equal; auto. Qed.

Lemma emit_no_client c event arg w :
  clients w !! c = None → emit c event arg w = (Normal tt, w).
Proof. intros Hc. unfold emit. by rewrite Hc. Qed.

Ltac run_emit :=
  cbn [wired listeners run_listeners];
  repeat first [ rewrite bool_decide_eq_true_2 by done
               | rewrite bool_decide_eq_false_2 by done ];
  unfold mbind, M_bind, mret, M_ret.

Lemma emit_qr c l c' id arg w :
  clients w !! c = Some (wired l c' id) →
  emit c "qr" arg w =
    (Normal tt,
     World (sessions w) (heap w) (clients w) (pending w ++ [QrTask l id])
       (calls w ++ [QRCodeToDataURL arg]) (console w)).
Proof. intros Hc. unfold emit. rewrite Hc. run_emit. reflexivity. Qed.

Lemma emit_ready c l c' id arg w :
  clients w !! c = Some (wired l c' id) →
  renders id = true →
  emit c "ready" arg w =
    (Normal tt,
     World (sessions w) (alter (set_ready true) l (heap w)) (clients w) (pending w)
       (calls w) (console w ++ [ConsoleLog (session_line id ": client ready") []])).
Proof.
  intros Hc Hid. unfold emit. rewrite Hc. run_emit. unfold run_listener, mbind, M_bind.
  unfold write_field at 1. rewrite session_template_renders by done. reflexivity.
Qed.

Lemma emit_auth_failure c l c' id arg w :
  clients w !! c = Some (wired l c' id) →
  renders id = true →
  emit c "auth_failure" arg w =
    (Normal tt,
     World (sessions w) (alter (set_ready false) l (heap w)) (clients w) (pending w)
       (calls w) (console w ++ [ConsoleError (session_line id ": auth failure") [ArgVal arg]])).
Proof.
  intros Hc Hid. unfold emit. rewrite Hc. run_emit. unfold run_listener, mbind, M_bind.
  rewrite session_template_renders by done. reflexivity.
Qed.

Lemma emit_disconnected c l c' id arg w :
  clients w !! c = Some (wired l c' id) →
  renders id = true →
  emit c "disconnected" arg w =
    (Normal tt,
     World (sessions w) (alter (set_qrDataUrl None ∘ set_ready false) l (heap w))
       (clients w) (pending w)
       (calls w ++ [ClientInitialize c'])
       (console w ++ [ConsoleLog (session_line id ": disconnected") [ArgVal arg]])).
Proof.
  intros Hc Hid. unfold emit. rewrite Hc. run_emit. unfold run_listener, mbind, M_bind.
  rewrite session_template_renders by done. rewrite <- alter_alter. reflexivity.
Qed.

Lemma emit_other c l c' id event arg w :
  clients w !! c = Some (wired l c' id) →
  event ∉ ["qr"; "ready"; "auth_failure"; "disconnected"] →
  emit c event arg w = (Normal tt, w).
Proof.
  intros Hc Hev. unfold emit. rewrite Hc. cbn [wired listeners run_listeners].
  rewrite !bool_decide_eq_false_2; [by destruct w| | | |];
    intros <-; apply Hev; set_solver.
Qed.

Lemma resume_qr_success t dataUrl w :
  renders (task_sid t) = true →
  resume_qr t (inl dataUrl) w =
    (Normal tt,
     World (sessions w) (alter (set_qrDataUrl (Some dataUrl)) (task_session t) (heap w))
       (clients w) (pending w) (calls w)
       (console w ++ [ConsoleLog (session_line (task_sid t) ": QR generated") []])).
Proof.
  intros Hid. unfold resume_qr, try_catch, settled, mbind, M_bind, mret, M_ret.
  unfold write_field at 1. rewrite session_template_renders by done. reflexivity.
Qed.

Lemma resume_qr_failure t err w :
  renders (task_sid t) = true →
  resume_qr t (inr err) w =
    (Normal tt,
     logged w [] [ConsoleError (session_line (task_sid t) ": QR generation error") [ArgErr err]]).
Proof.
  intros Hid. unfold resume_qr, try_catch, settled, throw, mbind, M_bind.
  rewrite session_template_renders by done. unfold logged. rewrite app_nil_r. reflexivity.
Qed.

(** The world a request leaves behind is the world before with further
    calls, none of them [sessions.set], and console lines, unless the
    request is a Register that creates a session. *)
Lemma handle_logged adapter r w :
  (∃ cs ls, snd (handle adapter r w) = logged w cs ls ∧ created cs = []) ∨
  (∃ q, r = GetRegister q ∧ truthy (sessionId q) = true ∧
        sessions w !! sessionId q = None ∧ accepted (sessionId q) = true ∧
        snd (handle adapter r w) = snd (initSession (sessionId q) w)).
Proof.
  assert (∃ cs ls, w = logged w cs ls ∧ created cs = []) as Hsame.
  { exists [], []. by rewrite logged_nil. }
  destruct r as [q|q|p|p]; cbn [handle].
  - destruct (truthy (sessionId q)) eqn:Hq; [|rewrite get_register_missing by done; by left].
    destruct (sessions w !! sessionId q) as [l|] eqn:Hl.
    + rewrite (get_register_known _ _ l) by done. left. by do 2 eexists.
    + destruct (accepted (sessionId q)) eqn:Hacc.
      * rewrite get_register_fresh by done. right. by exists q.
      * rewrite get_register_refused by done. left. by do 2 eexists.
  - left. destruct (truthy (sessionId q)) eqn:Hq; [|by rewrite get_health_missing].
    rewrite get_health_status by done. by do 2 eexists.
  - left. destruct (valid p) eqn:Hp; [|by rewrite post_send_invalid].
    destruct (ready_session w (sessionId p)) as [s|] eqn:Hr.
    + destruct (post_send_ready_logged adapter p w s Hp Hr) as (r & ls & ->).
      do 2 eexists. split; [done|]. apply created_try_calls.
    + rewrite post_send_not_ready by done. by do 2 eexists.
  - left. destruct (valid p) eqn:Hp; [|by rewrite get_send_invalid].
    destruct (ready_session w (sessionId p)) as [s|] eqn:Hr.
    + destruct (get_send_ready_logged adapter p w s Hp Hr) as (r & ls & ->).
      do 2 eexists. split; [done|]. apply created_try_calls.
    + rewrite get_send_not_ready by done. by do 2 eexists.
Qed.

Lemma wf_step i w : wf w → wf (step i w).
Proof.
  intros Hw. destruct i as [r adapter|c event arg|k r]; cbn [step].
  - destruct (handle_logged adapter r w)
      as [(cs & ls & -> & Hcs)|(q & _ & Hq & _ & _ & ->)].
    + by apply wf_logged.
    + by apply wf_initSession.
  - destruct (clients w !! c) as [[id hs]|] eqn:Hc; [|by rewrite emit_no_client].
    destruct (wf_clients _ Hw _ _ Hc) as [[= ->] Hs]. cbn [clientId] in Hs.
    change (clients w !! c = Some (wired c c id)) in Hc.
    pose proof (wf_renders _ Hw _ _ Hs) as Hid.
    destruct (decide (event ∈ ["qr"; "ready"; "auth_failure"; "disconnected"])) as [Hev|Hev];
      [|by rewrite (emit_other _ _ _ _ _ _ _ Hc)].
    repeat (apply elem_of_cons in Hev as [->|Hev]); [..|by apply elem_of_nil in Hev].
    + rewrite (emit_qr _ _ _ _ _ _ Hc). cbn [snd]. apply wf_update; auto.
      * eauto.
      * intros k t [[_ Hk]|[_ <-]]%lookup_snoc_Some; [by apply (wf_pending _ Hw k)|exact Hs].
      * by apply created_snoc.
    + rewrite (emit_ready _ _ _ _ _ _ Hc Hid). cbn [snd]. apply wf_update; auto.
      * apply length_alter.
      * by apply alter_keeps_client.
      * apply (wf_pending _ Hw).
    + rewrite (emit_auth_failure _ _ _ _ _ _ Hc Hid). cbn [snd]. apply wf_update; auto.
      * apply length_alter.
      * by apply alter_keeps_client.
      * apply (wf_pending _ Hw).
    + rewrite (emit_disconnected _ _ _ _ _ _ Hc Hid). cbn [snd]. apply wf_update; auto.
      * apply length_alter.
      * by apply alter_keeps_client.
      * apply (wf_pending _ Hw).
      * by apply created_snoc.
  - unfold settle_qr. destruct (pending w !! k) as [t|] eqn:Hk; [|done].
    assert (Hdel : ∀ k' t', delete k (pending w) !! k' = Some t' →
                     sessions w !! task_sid t' = Some (task_session t')).
    { intros k' t'. rewrite list_lookup_delete. apply (wf_pending _ Hw). }
    pose proof (wf_renders _ Hw _ _ (wf_pending _ Hw _ _ Hk)) as Hid.
    destruct r as [dataUrl|err].
    + rewrite resume_qr_success by done. cbn [snd]. fields. apply wf_update; auto.
      * apply length_alter.
      * by apply alter_keeps_client.
    + rewrite resume_qr_failure by done. cbn [snd]. unfold logged. fields.
      rewrite app_nil_r. apply wf_update; eauto.
Qed.

Lemma reachable_wf w : reachable w → wf w.
Proof. induction 1; auto using wf_initial, wf_step. Qed.

Lemma reachable_run inputs : reachable (run inputs initial).
Proof.
  unfold run. generalize reachable_initial. generalize initial.
  induction inputs as [|i inputs IH]; intros w Hw; cbn; [done|].
  apply IH. by constructor.
Qed.

(** ** Registry entries and client handles are kept *)

Lemma keeps_refl w : keeps w w.
Proof. split; eauto. Qed.

Lemma keeps_trans w1 w2 w3 : keeps w1 w2 → keeps w2 w3 → keeps w1 w3.
Proof.
  intros [Hs1 Hh1] [Hs2 Hh2]. split; [eauto|].
  intros l s Hl. destruct (Hh1 l s Hl) as (s' & Hl' & Hc').
  destruct (Hh2 l s' Hl') as (s'' & Hl'' & Hc''). exists s''. split; [done|congruence].
Qed.

Lemma keeps_update w f l ps cs ls :
  (∀ s, client (f s) = client s) →
  keeps w (World (sessions w) (alter f l (heap w)) (clients w) ps cs ls).
Proof. intros Hf. split; fields; [done|]. by apply alter_keeps_client. Qed.

Lemma keeps_logged w cs ls : keeps w (logged w cs ls).
Proof. split; eauto. Qed.

Lemma keeps_initSession id w : keeps w (snd (initSession id w)).
Proof.
  destruct (sessions w !! id) as [l|] eqn:Hl.
  - rewrite (initSession_known _ _ _ Hl). apply keeps_logged.
  - destruct (accepted id) eqn:Hacc;
      [|rewrite (initSession_refused _ _ Hl Hacc); apply keeps_logged].
    rewrite (initSession_fresh _ _ Hl Hacc). split; fields.
    + intros id' l' Hl'. rewrite lookup_insert_ne; [done|congruence].
    + intros l' s Hs. exists s. split; [|done]. by apply lookup_app_l_Some.
Qed.

Lemma keeping_bind {A B} (m : M A) (f : A → M B) :
  keeping m → (∀ x, keeping (f x)) → keeping (m ≫= f).
Proof.
  intros Hm Hf w. unfold mbind, M_bind. specialize (Hm w).
  destruct (m w) as [[x|e] w']; cbn [snd] in *; [|done].
  eapply keeps_trans; [exact Hm|apply Hf].
Qed.

Lemma keeping_try_catch {A} (m : M A) (h : js_error → M A) :
  keeping m → (∀ e, keeping (h e)) → keeping (try_catch m h).
Proof.
  intros Hm Hh w. unfold try_catch. specialize (Hm w).
  destruct (m w) as [[x|e] w']; cbn [snd] in *; [done|].
  eapply keeps_trans; [exact Hm|apply Hh].
Qed.

Lemma keeping_ret {A} (x : A) : keeping (mret x).
Proof. intros w. apply keeps_refl. Qed.

Lemma keeping_throw {A} e : keeping (@throw A e).
Proof. intros w. apply keeps_refl. Qed.

Lemma keeping_template v : keeping (template v).
Proof. unfold template. destruct (renders v); [apply keeping_ret|apply keeping_throw]. Qed.

Lemma keeping_session_template sid rest : keeping (session_template sid rest).
Proof.
  apply keeping_bind; [apply keeping_template|]. intros x. apply keeping_ret.
Qed.

Lemma keeping_record_log l : keeping (record_log l).
Proof. intros w. split; eauto. Qed.

Lemma keeping_record_call c : keeping (record_call c).
Proof. intros w. split; eauto. Qed.

Lemma keeping_write_field f l : (∀ s, client (f s) = client s) → keeping (write_field f l).
Proof. intros Hf w. by apply keeps_update. Qed.

Lemma keeping_run_listener h arg : keeping (run_listener h arg).
Proof.
  destruct h; cbn [run_listener].
  - apply keeping_bind; [apply keeping_record_call|]. intros _ w. split; eauto.
  - apply keeping_bind; [by apply keeping_write_field|]. intros _.
    apply keeping_bind; [apply keeping_session_template|]. intros line.
    apply keeping_record_log.
  - apply keeping_bind; [apply keeping_session_template|]. intros line.
    apply keeping_bind; [apply keeping_record_log|]. intros _.
    by apply keeping_write_field.
  - apply keeping_bind; [apply keeping_session_template|]. intros line.
    apply keeping_bind; [apply keeping_record_log|]. intros _.
    apply keeping_bind; [by apply keeping_write_field|]. intros _.
    apply keeping_bind; [by apply keeping_write_field|]. intros _.
    apply keeping_record_call.
Qed.

Lemma keeping_run_listeners hs event arg : keeping (run_listeners hs event arg).
Proof.
  induction hs as [|[e h] hs IH]; cbn [run_listeners]; [apply keeping_ret|].
  apply keeping_bind; [|by intros _].
  case_bool_decide; [apply keeping_run_listener|apply keeping_ret].
Qed.

Lemma keeping_resume_qr t r : keeping (resume_qr t r).
Proof.
  apply keeping_try_catch.
  - apply keeping_bind.
    + destruct r; [apply keeping_ret|apply keeping_throw].
    + intros dataUrl. apply keeping_bind; [by apply keeping_write_field|]. intros _.
      apply keeping_bind; [apply keeping_session_template|]. intros line.
      apply keeping_record_log.
  - intros err. apply keeping_bind; [apply keeping_session_template|]. intros line.
    apply keeping_record_log.
Qed.

Lemma keeps_handle adapter r w : keeps w (snd (handle adapter r w)).
Proof.
  destruct (handle_logged adapter r w) as [(cs & ls & -> & _)|(q & _ & _ & _ & _ & ->)].
  - apply keeps_logged.
  - apply keeps_initSession.
Qed.

Lemma keeps_step i w : keeps w (step i w).
Proof.
  destruct i as [r adapter|c event arg|k r]; cbn [step].
  - apply keeps_handle.
  - unfold emit. destruct (clients w !! c); [apply keeping_run_listeners|apply keeps_refl].
  - unfold settle_qr. destruct (pending w !! k) as [t|]; [|apply keeps_refl].
    eapply keeps_trans; [|apply keeping_resume_qr]. split; eauto.
Qed.

(** The HTTP handlers leave every existing session object as it is. *)
Lemma handle_heap adapter r w l s :
  heap w !! l = Some s → heap (snd (handle adapter r w)) !! l = Some s.
Proof.
  intros Hs.
  destruct (handle_logged adapter r w)
    as [(cs & ls & -> & _)|(q & _ & _ & Hl & Hacc & ->)]; [done|].
  rewrite (initSession_fresh _ _ Hl Hacc). fields. by apply lookup_app_l_Some.
Qed.

(** ** Send: validation, readiness, recipient *)

(** C2. A Send request, in the command form or the link form, from which
    [sessionId], [to] or [text] is missing is answered with the 400
    validation rejection and leaves the world as it was: nothing is added
    to the recorded calls, so the registry is not consulted and the
    adapter's [sendMessage] is not invoked. *)
Theorem send_missing_field_rejected adapter p w :
  missing (sessionId p) ∨ missing (to p) ∨ missing (text p) →
  (post_send adapter p w =
     (Normal (Response 400 (Json [("error", JsonString "Missing sessionId, to, or text")])), w) ∧
   get_send adapter p w =
     (Normal (Response 400 (Text "❌ Missing sessionId, to, or text")), w)) ∧
  registry_calls (calls (snd (post_send adapter p w))) = registry_calls (calls w) ∧
  registry_calls (calls (snd (get_send adapter p w))) = registry_calls (calls w) ∧
  sends (calls (snd (post_send adapter p w))) = sends (calls w) ∧
  sends (calls (snd (get_send adapter p w))) = sends (calls w).
Proof.
  intros Hm. assert (valid p = false) as Hp.
  { apply valid_false. unfold missing in Hm. destruct Hm as [-> | [-> | ->]]; auto. }
  by rewrite post_send_invalid, get_send_invalid.
Qed.

Lemma send_missing_field_rejected_witness :
  let p := Params (JStr "s1") JUndefined (JStr "hi") in
  (post_send Sent p paired =
     (Normal (Response 400 (Json [("error", JsonString "Missing sessionId, to, or text")])),
      paired) ∧
   get_send Sent p paired =
     (Normal (Response 400 (Text "❌ Missing sessionId, to, or text")), paired)) ∧
  registry_calls (calls (snd (post_send Sent p paired))) = registry_calls (calls paired) ∧
  registry_calls (calls (snd (get_send Sent p paired))) = registry_calls (calls paired) ∧
  sends (calls (snd (post_send Sent p paired))) = sends (calls paired) ∧
  sends (calls (snd (get_send Sent p paired))) = sends (calls paired).
Proof.
  apply (send_missing_field_rejected Sent (Params (JStr "s1") JUndefined (JStr "hi")) paired).
  right; left; reflexivity.
Defined.

Lemma not_ready w id :
  sessions w !! id = None ∨
  (∃ l s, sessions w !! id = Some l ∧ heap w !! l = Some s ∧ ready s = false) →
  ready_session w id = None.
Proof.
  unfold ready_session, session_of.
  intros [->|(l & s & -> & Hs & Hr)]; cbn; [done|]. rewrite Hs. cbn. by rewrite Hr.
Qed.

(** C3. A Send request with all three fields present whose session is
    absent from the registry, or present with [ready] false, is answered
    with 503 "Session not ready" in both forms; the only call made is the
    registry lookup, the adapter's [sendMessage] is not invoked, and the
    answer presents neither the validation rejection (400) nor an adapter
    failure (500). *)
Theorem send_not_ready_rejected adapter p w :
  truthy (sessionId p) = true → truthy (to p) = true → truthy (text p) = true →
  sessions w !! sessionId p = None ∨
  (∃ l s, sessions w !! sessionId p = Some l ∧ heap w !! l = Some s ∧ ready s = false) →
  let w' := logged w [SessionsGet (sessionId p)] [] in
  post_send adapter p w =
    (Normal (Response 503 (Json [("error", JsonString "Session not ready")])), w') ∧
  get_send adapter p w = (Normal (Response 503 (Text "⏳ Session not ready")), w') ∧
  sends (calls w') = sends (calls w) ∧
  ∀ r, r = fst (post_send adapter p w) ∨ r = fst (get_send adapter p w) →
       presents r NotReadyRejection ∧ ¬ presents r ValidationRejection ∧
       ∀ msg, ¬ presents r (AdapterFailure msg).
Proof.
  intros Hi Ht Hx Hs w'.
  assert (valid p = true) as Hp by (unfold valid; by rewrite Hi, Ht, Hx).
  apply not_ready in Hs.
  rewrite post_send_not_ready, get_send_not_ready by done.
  split; [done|]. split; [done|]. split.
  - unfold w', logged, sends. fields. rewrite omap_app. cbn. by rewrite app_nil_r.
  - intros r [-> | ->]; cbn; (split; [done|]); (split; [lia|]); intros msg [? _]; lia.
Qed.

Lemma send_not_ready_rejected_witness :
  let p := Params (JStr "s2") (JStr "15551234567") (JStr "hi") in
  let w' := logged paired [SessionsGet (JStr "s2")] [] in
  post_send Sent p paired =
    (Normal (Response 503 (Json [("error", JsonString "Session not ready")])), w') ∧
  get_send Sent p paired = (Normal (Response 503 (Text "⏳ Session not ready")), w') ∧
  sends (calls w') = sends (calls paired) ∧
  ∀ r, r = fst (post_send Sent p paired) ∨ r = fst (get_send Sent p paired) →
       presents r NotReadyRejection ∧ ¬ presents r ValidationRejection ∧
       ∀ msg, ¬ presents r (AdapterFailure msg).
Proof.
  apply (send_not_ready_rejected Sent (Params (JStr "s2") (JStr "15551234567") (JStr "hi")) paired);
    [reflexivity|reflexivity|reflexivity|left; reflexivity].
Defined.

Lemma new_calls w cs ls : drop (length (calls w)) (calls (logged w cs ls)) = cs.
Proof. unfold logged. fields. apply drop_app_length. Qed.

Lemma new_calls_none w : drop (length (calls w)) (calls w) = [].
Proof. apply drop_all. Qed.

(** C9. Whenever a Send request, in either form, reaches the adapter, the
    recipient identifier passed to [sendMessage] is the caller-supplied
    [to] (as the template literal renders it; a string is rendered as
    itself) followed by the fixed suffix "@c.us", and the message passed is
    the caller-supplied [text].  The suffix is a constant of the program,
    and the two forms make the same adapter invocations. *)
Theorem recipient_is_to_plus_suffix adapter p w c chatId txt :
  (c, chatId, txt) ∈ sends (drop (length (calls w)) (calls (snd (post_send adapter p w)))) ∨
  (c, chatId, txt) ∈ sends (drop (length (calls w)) (calls (snd (get_send adapter p w)))) →
  chatId = ToString (to p) +:+ suffix ∧
  (∀ s, to p = JStr s → chatId = s +:+ "@c.us") ∧
  txt = text p ∧
  sends (calls (snd (post_send adapter p w))) = sends (calls (snd (get_send adapter p w))).
Proof.
  destruct (valid p) eqn:Hp.
  - destruct (ready_session w (sessionId p)) as [s|] eqn:Hr.
    + destruct (post_send_ready_logged adapter p w s Hp Hr) as (r1 & ls1 & ->).
      destruct (get_send_ready_logged adapter p w s Hp Hr) as (r2 & ls2 & ->).
      cbn [snd]. rewrite !new_calls. unfold try_calls.
      destruct (renders (to p)); cbn;
        [|intros [Hin|Hin]; by apply elem_of_nil in Hin].
      intros [Hin|Hin]; apply list_elem_of_singleton in Hin as [= -> -> ->];
        (split; [done|]); (split; [by intros s' ->|]); by split.
    + rewrite post_send_not_ready, get_send_not_ready by done.
      cbn [snd]. rewrite !new_calls. cbn. intros [Hin|Hin]; by apply elem_of_nil in Hin.
  - rewrite post_send_invalid, get_send_invalid by done.
    cbn [snd]. rewrite !new_calls_none. cbn. intros [Hin|Hin]; by apply elem_of_nil in Hin.
Qed.

Lemma recipient_is_to_plus_suffix_witness :
  "15551234567@c.us" = ToString (to s1) +:+ suffix ∧
  (∀ s, to s1 = JStr s → "15551234567@c.us" = s +:+ "@c.us") ∧
  JStr "hi" = text s1 ∧
  sends (calls (snd (post_send Sent s1 paired))) = sends (calls (snd (get_send Sent s1 paired))).
Proof.
  apply (recipient_is_to_plus_suffix Sent s1 paired 0 "15551234567@c.us" (JStr "hi")).
  left. vm_compute. constructor.
Defined.

(** ** The two forms of Send *)

(** C1, as stated, fails.  With the session of the scenario paired and
    the adapter rejecting with "socket closed", the command form answers
    500 with that message in its body, while the link form answers 500
    with a fixed text in which the message does not occur.  So the link
    form does not present every outcome the command form presents. *)
Lemma link_form_drops_failure_message :
  let adapter := Rejected (Error "socket closed") in
  fst (post_send adapter s1 paired) =
    Normal (Response 500 (Json [("error", JsonString "socket closed")])) ∧
  fst (get_send adapter s1 paired) = Normal (Response 500 (Text "❌ Failed to send message")) ∧
  presents (fst (post_send adapter s1 paired)) (AdapterFailure "socket closed") ∧
  ¬ presents (fst (get_send adapter s1 paired)) (AdapterFailure "socket closed") ∧
  ¬ link_form_same_semantics.
Proof.
  cbn zeta. split; [reflexivity|]. split; [reflexivity|].
  assert (presents (fst (post_send (Rejected (Error "socket closed")) s1 paired))
            (AdapterFailure "socket closed")) as Hpost by (vm_compute; by split).
  assert (¬ presents (fst (get_send (Rejected (Error "socket closed")) s1 paired))
              (AdapterFailure "socket closed")) as Hget.
  { vm_compute. intros [_ H]. discriminate H. }
  split; [done|]. split; [done|].
  intros H. apply Hget, H, Hpost.
Qed.

Lemma ready_session_renders w id s :
  reachable w ∨ renders id = true → ready_session w id = Some s → renders id = true.
Proof.
  intros [Hw%reachable_wf|Hid] Hr; [|done].
  unfold ready_session, session_of in Hr.
  destruct (sessions w !! id) as [l|] eqn:Hl; [|done].
  by apply (wf_renders _ Hw _ _ Hl).
Qed.

(** C1 (amended). In every world the server can reach, for identical
    inputs the link form answers with the same status as the command
    form, as plain text in place of structured data, and has the same
    effects on the registry, the sessions and the adapter; only the
    console line of a failure differs.  The command form answers 400 when
    a field is missing, 503 when the session is absent or not ready, 200
    when the adapter accepted the message, and 500 when the [try] block
    failed: with the adapter's own message when the adapter rejected, and
    with the TypeError's message when the recipient could not be
    rendered.  The link form's text is fixed by the status and carries no
    message. *)
Theorem link_form_refines_command_form adapter p w :
  reachable w ∨ renders (sessionId p) = true →
  ∃ r w_post w_get,
    post_send adapter p w = (Normal r, w_post) ∧
    get_send adapter p w = (Normal (plain_text r), w_get) ∧
    same_effects w_post w_get ∧
    (valid p = false →
       r = Response 400 (Json [("error", JsonString "Missing sessionId, to, or text")])) ∧
    (valid p = true → ready_session w (sessionId p) = None →
       r = Response 503 (Json [("error", JsonString "Session not ready")])) ∧
    (valid p = true → is_Some (ready_session w (sessionId p)) → renders (to p) = true →
       adapter = Sent → r = res_json [("success", JsonTrue)]) ∧
    (∀ err, valid p = true → is_Some (ready_session w (sessionId p)) →
            renders (to p) = true → adapter = Rejected err →
            r = Response 500 (Json [("error", JsonString (message err))])) ∧
    (valid p = true → is_Some (ready_session w (sessionId p)) → renders (to p) = false →
       r = Response 500 (Json [("error", JsonString (message CannotConvert))])).
Proof.
  intros Hw. destruct (valid p) eqn:Hp.
  - destruct (ready_session w (sessionId p)) as [s|] eqn:Hr.
    + pose proof (ready_session_renders _ _ _ Hw Hr) as Hid.
      rewrite (post_send_ready _ _ _ s), (get_send_ready _ _ _ s) by done.
      rewrite Hid. unfold try_failure.
      destruct (renders (to p)) eqn:Ht; [destruct adapter as [|err]|];
        do 3 eexists; (split; [done|]); (split; [done|]); (split; [done|]);
        (split; [done|]); (split; [done|]); (split; [done|]); (split; [|done]).
      * by intros err.
      * by intros err' _ _ _ [= ->].
      * by intros err.
    + rewrite post_send_not_ready, get_send_not_ready by done.
      do 3 eexists. split; [done|]. split; [done|]. split; [done|].
      split; [done|]. split; [done|]. split; [by intros _ [? ?]|].
      split; [by intros err _ [? ?]|by intros _ [? ?]].
  - rewrite post_send_invalid, get_send_invalid by done.
    do 3 eexists. split; [done|]. split; [done|]. split; [done|].
    split; [done|]. split; [done|]. split; [done|]. split; [by intros err|done].
Qed.

Lemma link_form_refines_command_form_witness :
  ∃ r w_post w_get,
    post_send (Rejected (Error "socket closed")) s1 paired = (Normal r, w_post) ∧
    get_send (Rejected (Error "socket closed")) s1 paired = (Normal (plain_text r), w_get) ∧
    same_effects w_post w_get ∧
    r = Response 500 (Json [("error", JsonString "socket closed")]).
Proof.
  destruct (link_form_refines_command_form (Rejected (Error "socket closed")) s1 paired)
    as (r & w_post & w_get & H1 & H2 & H3 & _ & _ & _ & H4 & _).
  - left. apply reachable_run.
  - exists r, w_post, w_get. split; [exact H1|]. split; [exact H2|]. split; [exact H3|].
    apply (H4 (Error "socket closed")); [reflexivity|by eexists|reflexivity|reflexivity].
Defined.

(** ** getOrCreate *)

Lemma get_register_twice q w :
  fst (get_register q (snd (get_register q w))) = fst (get_register q w).
Proof.
  destruct (truthy (sessionId q)) eqn:Hq; [|by rewrite !get_register_missing].
  destruct (sessions w !! sessionId q) as [l|] eqn:Hl.
  - rewrite (get_register_known _ w l) by done. cbn [fst snd].
    by rewrite (get_register_known _ _ l).
  - destruct (accepted (sessionId q)) eqn:Hacc.
    + rewrite (get_register_fresh _ w), (initSession_fresh _ _ Hl) by done. cbn [fst snd].
      rewrite (get_register_known _ _ (length (heap w))); fields; [|done|apply lookup_insert_eq].
      cbn [fst]. by rewrite lookup_app_r, Nat.sub_diag by lia.
    + rewrite (get_register_refused _ w) by done. cbn [fst snd].
      by rewrite get_register_refused.
Qed.

(** C4. [initSession] on an identifier that already has a registry entry
    returns that entry's session and creates nothing: registry, sessions,
    clients and suspended listeners are as before, and the only calls made
    are the two registry reads.  Over the whole life of the process the
    registry holds exactly the sessions ever stored in it, and no
    identifier is ever stored twice.  Two Register requests for one
    identifier in direct succession get the same answer, hence the same
    pairing image. *)
Theorem getOrCreate_idempotent :
  (∀ w id l, sessions w !! id = Some l →
     initSession id w = (Normal (Some l), logged w [SessionsHas id; SessionsGet id] []) ∧
     store (snd (initSession id w)) = store w) ∧
  (∀ w, reachable w →
     NoDup (created (calls w)).*1 ∧
     ∀ id l, (id, l) ∈ created (calls w) ↔ sessions w !! id = Some l) ∧
  (∀ q w, fst (get_register q (snd (get_register q w))) = fst (get_register q w)).
Proof.
  split; [|split].
  - intros w id l Hl. by rewrite (initSession_known _ _ _ Hl).
  - intros w Hw%reachable_wf. split; [apply (wf_created_once _ Hw)|apply (wf_created _ Hw)].
  - apply get_register_twice.
Qed.

Lemma getOrCreate_idempotent_witness :
  (initSession (JStr "s1") paired =
     (Normal (Some 0), logged paired [SessionsHas (JStr "s1"); SessionsGet (JStr "s1")] []) ∧
   store (snd (initSession (JStr "s1") paired)) = store paired) ∧
  (NoDup (created (calls paired)).*1 ∧
   ∀ id l, (id, l) ∈ created (calls paired) ↔ sessions paired !! id = Some l).
Proof.
  destruct getOrCreate_idempotent as (Hknown & Honce & _). split.
  - apply (Hknown paired (JStr "s1") 0). reflexivity.
  - apply (Honce paired). apply reachable_run.
Defined.

(** C5, as stated, fails.  The identifier "a b" is truthy and unseen in
    the initial world, but the client constructor refuses it: [initSession]
    throws out of [new Client] after the registry test, nothing is
    constructed or stored, and Register throws instead of answering a null
    pairing image. *)
Lemma getOrCreate_refuses_identifier :
  let id := JStr "a b" in
  sessions initial !! id = None ∧ truthy id = true ∧
  initSession id initial = (Throw InvalidClientId, logged initial [SessionsHas id] []) ∧
  store (snd (initSession id initial)) = store initial ∧
  get_register (Params id JUndefined JUndefined) initial =
    (Throw InvalidClientId, logged initial [SessionsHas id] []) ∧
  ¬ creates_for_every_unseen.
Proof.
  cbn zeta. split; [reflexivity|]. split; [reflexivity|].
  assert (initSession (JStr "a b") initial =
            (Throw InvalidClientId, logged initial [SessionsHas (JStr "a b")] [])) as Hinit
    by (by apply (initSession_refused (JStr "a b") initial)).
  split; [exact Hinit|]. split; [by rewrite Hinit|].
  split; [by apply (get_register_refused (Params (JStr "a b") JUndefined JUndefined) initial)|].
  intros H. destruct (H (JStr "a b") initial eq_refl) as (l & w' & Heq & _).
  rewrite Hinit in Heq. discriminate Heq.
Qed.

(** C5 (amended). [initSession] on an identifier without a registry entry
    that the client constructor accepts constructs a new client scoped to
    that identifier, stores a new session with [ready] false and
    [qrDataUrl] null under the identifier, registers the four listeners on
    the client, calls [initialize] on it as its last call without waiting
    for any event, and returns the new session.  The Register response
    for such an identifier carries a null pairing image. *)
Theorem getOrCreate_creates id w :
  sessions w !! id = None →
  accepted id = true →
  let l := length (heap w) in
  let c := length (clients w) in
  ∃ w',
    initSession id w = (Normal (Some l), w') ∧
    heap w !! l = None ∧ clients w !! c = None ∧
    heap w' = heap w ++ [Session c false None] ∧
    clients w' = clients w ++ [wired l c id] ∧
    sessions w' = <[id := l]> (sessions w) ∧
    pending w' = pending w ∧
    calls w' = calls w ++
      [ SessionsHas id; NewClient c id; SessionsSet id l;
        ClientOn c "qr"; ClientOn c "ready"; ClientOn c "auth_failure";
        ClientOn c "disconnected"; ClientInitialize c ] ∧
    ∀ q, sessionId q = id → truthy id = true →
         get_register q w = (Normal (res_json [("qrDataUrl", JsonNull)]), w').
Proof.
  intros Hl Hacc l c. eexists. split; [by apply initSession_fresh|].
  split; [by apply lookup_ge_None|]. split; [by apply lookup_ge_None|].
  do 5 (split; [reflexivity|]).
  intros q <- Hq. by rewrite get_register_fresh, (initSession_fresh _ _ Hl Hacc).
Qed.

Lemma getOrCreate_creates_witness :
  ∃ w',
    initSession (JStr "s2") paired = (Normal (Some 1), w') ∧
    heap paired !! 1 = None ∧ clients paired !! 1 = None ∧
    heap w' = heap paired ++ [Session 1 false None] ∧
    clients w' = clients paired ++ [wired 1 1 (JStr "s2")] ∧
    sessions w' = <[JStr "s2" := 1]> (sessions paired) ∧
    pending w' = pending paired ∧
    calls w' = calls paired ++
      [ SessionsHas (JStr "s2"); NewClient 1 (JStr "s2"); SessionsSet (JStr "s2") 1;
        ClientOn 1 "qr"; ClientOn 1 "ready"; ClientOn 1 "auth_failure";
        ClientOn 1 "disconnected"; ClientInitialize 1 ] ∧
    ∀ q, sessionId q = JStr "s2" → truthy (JStr "s2") = true →
         get_register q paired = (Normal (res_json [("qrDataUrl", JsonNull)]), w').
Proof.
  apply (getOrCreate_creates (JStr "s2") paired); reflexivity.
Defined.

(** ** Health *)

(** C6. Health is a pure read.  For every identifier it answers
    "initializing" when the registry has no entry for it or the entry's
    session has [ready] false, and "ready" otherwise; it makes one
    registry lookup and leaves the registry, the session objects, the
    clients and the suspended listeners as they were.  No HTTP handler
    changes an existing session object, so [ready] and [qrDataUrl] change
    only in the listeners. *)
Theorem health_is_pure_read q w :
  truthy (sessionId q) = true →
  get_health q w =
    (Normal (res_json [("status",
       JsonString (match ready_session w (sessionId q) with
                   | Some _ => "ready"
                   | None => "initializing"
                   end))]),
     logged w [SessionsGet (sessionId q)] []) ∧
  (∀ s, ready_session w (sessionId q) = Some s ↔
        ∃ l, sessions w !! sessionId q = Some l ∧ heap w !! l = Some s ∧ ready s = true) ∧
  store (snd (get_health q w)) = store w ∧
  ∀ adapter r l s, heap w !! l = Some s → heap (snd (handle adapter r w)) !! l = Some s.
Proof.
  intros Hq. rewrite get_health_status by done. split; [done|]. split; [|split; [done|]].
  - intros s. unfold ready_session, session_of. split.
    + destruct (sessions w !! sessionId q) as [l|]; cbn; [|done].
      destruct (heap w !! l) as [s'|] eqn:Hs'; cbn; [|done].
      destruct (ready s') eqn:Hr; [|done]. intros [= <-]. by exists l.
    + intros (l & -> & Hs & Hr). cbn. rewrite Hs. cbn. by rewrite Hr.
  - intros adapter r l s. apply handle_heap.
Qed.

Lemma health_is_pure_read_witness :
  get_health s1 paired =
    (Normal (res_json [("status", JsonString "ready")]),
     logged paired [SessionsGet (JStr "s1")] []) ∧
  get_health (Params (JStr "s2") JUndefined JUndefined) paired =
    (Normal (res_json [("status", JsonString "initializing")]),
     logged paired [SessionsGet (JStr "s2")] []) ∧
  store (snd (get_health s1 paired)) = store paired.
Proof.
  destruct (health_is_pure_read s1 paired) as (H1 & _ & H2 & _); [reflexivity|].
  destruct (health_is_pure_read (Params (JStr "s2") JUndefined JUndefined) paired)
    as (H3 & _); [reflexivity|].
  split; [exact H1|]. split; [exact H3|exact H2].
Defined.

(** ** The listeners *)

Lemma reset_session l s (h : list session) :
  h !! l = Some s →
  alter (set_qrDataUrl None ∘ set_ready false) l h = <[l := Session (client s) false None]> h.
Proof.
  intros Hs. rewrite list_insert_alter. apply list_alter_ext; [|done].
  intros s' Hs'. by simplify_eq.
Qed.

(** C7. For every session, the [disconnected] listener that [initSession]
    registered on its client sets [ready] to false, clears [qrDataUrl],
    keeps the client handle, and calls [initialize] again on that same
    client; registry, clients and suspended listeners are untouched.  In
    every world the server can reach, each session of the registry has its
    client wired in this way.  No step of the server ever replaces a
    registry entry or changes the client handle of a session object. *)
Theorem disconnected_resets_and_reconnects w c l id s reason :
  clients w !! c = Some (wired l c id) →
  heap w !! l = Some s →
  renders id = true →
  emit c "disconnected" reason w =
    (Normal tt,
     World (sessions w) (<[l := Session (client s) false None]> (heap w)) (clients w)
       (pending w) (calls w ++ [ClientInitialize c])
       (console w ++ [ConsoleLog (session_line id ": disconnected") [ArgVal reason]])) ∧
  (∀ w1 id1 l1, reachable w1 → sessions w1 !! id1 = Some l1 →
     ∃ s1, heap w1 !! l1 = Some s1 ∧
           clients w1 !! client s1 = Some (wired l1 (client s1) id1) ∧
           renders id1 = true) ∧
  (∀ i w0, keeps w0 (step i w0)).
Proof.
  intros Hc Hs Hid. split; [|split; [|apply keeps_step]].
  - rewrite (emit_disconnected _ _ _ _ _ _ Hc Hid). by rewrite (reset_session l s).
  - intros w1 id1 l1 Hw%reachable_wf Hl.
    destruct (wf_sessions _ Hw _ _ Hl) as [(s1 & Hs1 & Hc1) Hcl].
    exists s1. split; [done|]. rewrite Hc1. split; [done|]. by apply (wf_renders _ Hw _ _ Hl).
Qed.

Lemma disconnected_resets_and_reconnects_witness :
  heap paired = [Session 0 true (Some "data:image/png;base64,AAAA")] ∧
  emit 0 "disconnected" (JStr "LOGOUT") paired =
    (Normal tt,
     World (sessions paired) [Session 0 false None] (clients paired) (pending paired)
       (calls paired ++ [ClientInitialize 0])
       (console paired ++ [ConsoleLog "Session s1: disconnected" [ArgVal (JStr "LOGOUT")]])).
Proof.
  split; [reflexivity|].
  destruct (disconnected_resets_and_reconnects paired 0 0 (JStr "s1")
              (Session 0 true (Some "data:image/png;base64,AAAA")) (JStr "LOGOUT"))
    as [H _]; [reflexivity|reflexivity|reflexivity|].
  exact H.
Defined.

Lemma store_qrDataUrl l s q (h : list session) :
  h !! l = Some s →
  alter (set_qrDataUrl q) l h = <[l := Session (client s) (ready s) q]> h.
Proof.
  intros Hs. rewrite list_insert_alter. apply list_alter_ext; [|done].
  intros s' Hs'. by simplify_eq.
Qed.

(** C8. For every session of the registry, the [qr] event of its client
    makes the listener ask the encoder for the image and suspend, without
    touching any session.  When a suspended [qr] listener is resumed with
    the encoded image it stores the image in its session's [qrDataUrl],
    leaving the other fields; when it is resumed with an encoding error it
    logs the error and leaves every session, in particular [qrDataUrl],
    as it was.  Neither part throws. *)
Theorem qr_listener_stores_or_logs w :
  reachable w →
  (∀ id l token, sessions w !! id = Some l →
     ∃ s, heap w !! l = Some s ∧
          emit (client s) "qr" token w =
            (Normal tt,
             World (sessions w) (heap w) (clients w) (pending w ++ [QrTask l id])
               (calls w ++ [QRCodeToDataURL token]) (console w))) ∧
  (∀ k t, pending w !! k = Some t →
     ∃ s, heap w !! task_session t = Some s ∧
          sessions w !! task_sid t = Some (task_session t) ∧
          (∀ dataUrl, ∃ w',
             settle_qr k (inl dataUrl) w = (Normal tt, w') ∧
             heap w' =
               <[task_session t := Session (client s) (ready s) (Some dataUrl)]> (heap w) ∧
             sessions w' = sessions w ∧ clients w' = clients w ∧ calls w' = calls w) ∧
          (∀ err, ∃ w',
             settle_qr k (inr err) w = (Normal tt, w') ∧
             heap w' = heap w ∧
             sessions w' = sessions w ∧ clients w' = clients w ∧ calls w' = calls w ∧
             console w' =
               console w ++
               [ConsoleError (session_line (task_sid t) ": QR generation error") [ArgErr err]])).
Proof.
  intros Hw%reachable_wf. split.
  - intros id l token Hl. destruct (wf_sessions _ Hw _ _ Hl) as [(s & Hs & Hc) Hcl].
    exists s. split; [done|]. rewrite Hc. by apply emit_qr with (c' := l).
  - intros k t Hk. pose proof (wf_pending _ Hw _ _ Hk) as Ht.
    destruct (wf_sessions _ Hw _ _ Ht) as [(s & Hs & Hc) Hcl].
    pose proof (wf_renders _ Hw _ _ Ht) as Hid.
    exists s. split; [done|]. split; [done|]. split.
    + intros dataUrl. eexists. unfold settle_qr. rewrite Hk, resume_qr_success by done.
      fields. split; [done|]. fields. split; [|done]. by apply store_qrDataUrl.
    + intros err. eexists. unfold settle_qr. rewrite Hk, resume_qr_failure by done.
      split; [done|]. unfold logged. fields. by rewrite app_nil_r.
Qed.

Lemma qr_listener_stores_or_logs_witness :
  (∃ w',
     settle_qr 0 (inl "data:image/png;base64,AAAA") awaiting = (Normal tt, w') ∧
     heap w' = [Session 0 false (Some "data:image/png;base64,AAAA")]) ∧
  (∃ w',
     settle_qr 0 (inr (Error "bad token")) awaiting = (Normal tt, w') ∧
     heap w' = heap awaiting ∧
     console w' = [ConsoleError "Session s1: QR generation error" [ArgErr (Error "bad token")]]).
Proof.
  destruct (qr_listener_stores_or_logs awaiting (reachable_run _)) as [_ H].
  destruct (H 0 (QrTask 0 (JStr "s1")) eq_refl) as (s & Hs & _ & Hok & Hfail).
  injection Hs as <-. split.
  - destruct (Hok "data:image/png;base64,AAAA") as (w' & ? & ? & _). by exists w'.
  - destruct (Hfail (Error "bad token")) as (w' & ? & ? & _ & _ & _ & ?). by exists w'.
Defined.

(** ** Empty strings *)

Lemma blank_truthy v : truthy (blank_as_absent v) = truthy v.
Proof. unfold blank_as_absent. case_decide; by subst. Qed.

Lemma blank_truthy_id v : truthy v = true → blank_as_absent v = v.
Proof. unfold blank_as_absent. case_decide; by subst. Qed.

Lemma blank_valid p : valid (blank_params p) = valid p.
Proof. unfold valid, blank_params. cbn. by rewrite !blank_truthy. Qed.

Lemma blank_valid_id p : valid p = true → blank_params p = p.
Proof.
  destruct p as [i t x]. unfold valid, blank_params. cbn.
  intros [[Hi Ht]%andb_prop Hx]%andb_prop. by rewrite !blank_truthy_id.
Qed.

Lemma handle_blank adapter r w : handle adapter (blank_request r) w = handle adapter r w.
Proof.
  destruct r as [q|q|p|p]; cbn [handle blank_request].
  - destruct (truthy (sessionId q)) eqn:Hq.
    + unfold get_register. cbn [blank_params sessionId]. by rewrite blank_truthy_id.
    + rewrite !get_register_missing; [done..|]. cbn. by rewrite blank_truthy.
  - destruct (truthy (sessionId q)) eqn:Hq.
    + unfold get_health. cbn [blank_params sessionId]. by rewrite blank_truthy_id.
    + rewrite !get_health_missing; [done..|]. cbn. by rewrite blank_truthy.
  - destruct (valid p) eqn:Hp; [by rewrite blank_valid_id|].
    rewrite !post_send_invalid; [done..|]. by rewrite blank_valid.
  - destruct (valid p) eqn:Hp; [by rewrite blank_valid_id|].
    rewrite !get_send_invalid; [done..|]. by rewrite blank_valid.
Qed.

(** C10. In Register, Health and both forms of Send, an empty string in
    a required field is treated as that field being absent: the request
    gets the answer it would get without the field, which is a 400, and
    the world is left as it was, so the registry is not consulted.  No
    session is ever created or registered under the empty string. *)
Theorem empty_string_is_missing adapter r w :
  has_empty_required r →
  handle adapter r w = handle adapter (blank_request r) w ∧
  (∃ b, handle adapter r w = (Normal (Response 400 b), w)) ∧
  (reachable w → sessions w !! JStr "" = None ∧ ∀ l, (JStr "", l) ∉ created (calls w)).
Proof.
  intros Hr. split; [by rewrite handle_blank|]. split.
  - destruct r as [q|q|p|p]; cbn [handle has_empty_required] in *.
    + eexists. apply get_register_missing. by rewrite Hr.
    + eexists. apply get_health_missing. by rewrite Hr.
    + eexists. apply post_send_invalid. apply valid_false.
      destruct Hr as [-> | [-> | ->]]; auto.
    + eexists. apply get_send_invalid. apply valid_false.
      destruct Hr as [-> | [-> | ->]]; auto.
  - intros Hw%reachable_wf.
    assert (sessions w !! JStr "" = None) as Hnone.
    { destruct (sessions w !! JStr "") as [l|] eqn:Hl; [|done].
      by apply (wf_truthy _ Hw) in Hl. }
    split; [done|]. intros l Hin%(wf_created _ Hw). congruence.
Qed.

Lemma empty_string_is_missing_witness :
  let r := GetRegister (Params (JStr "") JUndefined JUndefined) in
  handle Sent r paired = handle Sent (blank_request r) paired ∧
  (∃ b, handle Sent r paired = (Normal (Response 400 b), paired)) ∧
  (reachable paired →
   sessions paired !! JStr "" = None ∧ ∀ l, (JStr "", l) ∉ created (calls paired)).
Proof.
  apply (empty_string_is_missing Sent (GetRegister (Params (JStr "") JUndefined JUndefined)) paired).
  reflexivity.
Defined.


(** ** The scenario of the specification, run *)

Example scenario_register_then_qr :
  fst (get_register s1 initial) = Normal (res_json [("qrDataUrl", JsonNull)]) ∧
  fst (get_register s1 paired) =
    Normal (res_json [("qrDataUrl", JsonString "data:image/png;base64,AAAA")]).
Proof. split; reflexivity. Qed.

Example scenario_health :
  fst (get_health s1 initial) = Normal (res_json [("status", JsonString "initializing")]) ∧
  sessions (snd (get_health s1 initial)) = ∅ ∧
  fst (get_health s1 paired) = Normal (res_json [("status", JsonString "ready")]).
Proof. repeat split; reflexivity. Qed.

Example scenario_send :
  fst (post_send Sent s1 paired) = Normal (res_json [("success", JsonTrue)]) ∧
  sends (calls (snd (post_send Sent s1 paired))) = [(0, "15551234567@c.us", JStr "hi")].
Proof. split; reflexivity. Qed.

Example unrenderable_recipient :
  let p := Params (JStr "s1") (JBare 7) (JStr "hi") in
  post_send Sent p paired =
    (Normal (Response 500
               (Json [("error", JsonString "Cannot convert object to primitive value")])),
     logged paired [SessionsGet (JStr "s1")]
       [ConsoleError "Session s1 send error:" [ArgErr CannotConvert]]) ∧
  fst (get_send Sent p paired) = Normal (Response 500 (Text "❌ Failed to send message")) ∧
  sends (calls (snd (get_send Sent p paired))) = sends (calls paired).
Proof. repeat split; reflexivity. Qed.

Example refused_identifier :
  let q := Params (JStr "a b") JUndefined JUndefined in
  get_register q paired = (Throw InvalidClientId, logged paired [SessionsHas (JStr "a b")] []) ∧
  accepted (JStr "my-session_01") = true ∧
  accepted (JObj 3 "[object Object]") = false.
Proof. repeat split; reflexivity. Qed.

Example scenario_disconnect :
  let w := step (Emit 0 "disconnected" (JStr "LOGOUT")) paired in
  fst (get_health s1 w) = Normal (res_json [("status", JsonString "initializing")]) ∧
  fst (get_register s1 w) = Normal (res_json [("qrDataUrl", JsonNull)]).
Proof. split; reflexivity. Qed.

(** * Further properties of the code *)

(** ** Sessions under their events *)

Lemma ready_session_at w id l s :
  sessions w !! id = Some l → heap w !! l = Some s →
  ready_session w id = if ready s then Some s else None.
Proof. intros Hl Hs. unfold ready_session, session_of. rewrite Hl. cbn. by rewrite Hs. Qed.

Lemma wf_session w id l s :
  wf w → sessions w !! id = Some l → heap w !! l = Some s →
  client s = l ∧ clients w !! l = Some (wired l l id) ∧ truthy id = true ∧ l < length (heap w).
Proof.
  intros Hw Hl Hs. destruct (wf_sessions _ Hw _ _ Hl) as [(s' & Hs' & Hc) Hcl].
  assert (s' = s) as -> by congruence.
  split; [done|]. split; [done|]. split; [by apply (wf_truthy _ Hw _ _ Hl)|].
  by apply lookup_lt_Some in Hs.
Qed.

Lemma set_field l s f (h : list session) :
  h !! l = Some s → alter f l h = <[l := f s]> h.
Proof.
  intros Hs. rewrite list_insert_alter. apply list_alter_ext; [|done].
  intros s' Hs'. by simplify_eq.
Qed.

(** X1. The [ready] event of a session's client sets [ready] to true and
    nothing else: the pairing image and the client handle stay, no call is
    made.  From then on Health answers "ready" for the identifier and a
    Send whose recipient and text are present, and whose recipient can be
    rendered, reaches the session's client. *)
Theorem ready_event_marks_ready w id l s arg :
  reachable w → sessions w !! id = Some l → heap w !! l = Some s →
  let w' := step (Emit (client s) "ready" arg) w in
  heap w' = <[l := Session (client s) true (qrDataUrl s)]> (heap w) ∧
  sessions w' = sessions w ∧ clients w' = clients w ∧ pending w' = pending w ∧
  calls w' = calls w ∧
  (∀ q, sessionId q = id →
        fst (get_health q w') = Normal (res_json [("status", JsonString "ready")])) ∧
  (∀ adapter p, sessionId p = id → truthy (to p) = true → truthy (text p) = true →
        renders (to p) = true →
        sends (drop (length (calls w)) (calls (snd (post_send adapter p w')))) =
          [(client s, ToString (to p) +:+ suffix, text p)]).
Proof.
  intros Hw%reachable_wf Hl Hs w'.
  destruct (wf_session _ _ _ _ Hw Hl Hs) as (Hc & Hcl & Hid & Hlt).
  pose proof (wf_renders _ Hw _ _ Hl) as Hrn.
  assert (w' = World (sessions w) (<[l := Session (client s) true (qrDataUrl s)]> (heap w))
                 (clients w) (pending w) (calls w)
                 (console w ++ [ConsoleLog (session_line id ": client ready") []])) as Hw'.
  { unfold w'. cbn [step]. rewrite Hc at 1. rewrite (emit_ready _ _ _ _ _ _ Hcl Hrn).
    cbn [snd]. by rewrite (set_field l s). }
  assert (ready_session w' id = Some (Session (client s) true (qrDataUrl s))) as Hr.
  { rewrite (ready_session_at w' id l (Session (client s) true (qrDataUrl s))); [done| |].
    - by rewrite Hw'.
    - rewrite Hw'. fields. by apply list_lookup_insert_eq. }
  rewrite Hw' at 1 2 3 4 5. fields. do 5 (split; [done|]). split.
  - intros q <-. rewrite get_health_status by done. by rewrite Hr.
  - intros adapter p <- Ht Hx Hto.
    assert (valid p = true) as Hp by (unfold valid; by rewrite Hid, Ht, Hx).
    destruct (post_send_ready_logged adapter p w' _ Hp Hr) as (r & ls & ->).
    cbn [snd]. replace (calls w) with (calls w') at 1 by (by rewrite Hw').
    rewrite new_calls. unfold try_calls. by rewrite Hto.
Qed.

Lemma ready_event_marks_ready_witness :
  let w' := step (Emit 0 "ready" JUndefined) awaiting in
  heap w' = <[0 := Session 0 true None]> (heap awaiting) ∧
  fst (get_health s1 w') = Normal (res_json [("status", JsonString "ready")]).
Proof.
  destruct (ready_event_marks_ready awaiting (JStr "s1") 0 (Session 0 false None) JUndefined)
    as (H1 & _ & _ & _ & _ & H2 & _).
  - apply reachable_run.
  - reflexivity.
  - reflexivity.
  - split; [exact H1|]. by apply H2.
Defined.

Lemma polls w id l s q :
  sessions w !! id = Some l → heap w !! l = Some s → truthy id = true → sessionId q = id →
  fst (get_health q w) =
    Normal (res_json [("status", JsonString (if ready s then "ready" else "initializing"))]) ∧
  fst (get_register q w) = Normal (res_json [("qrDataUrl", json_of_qrDataUrl (qrDataUrl s))]).
Proof.
  intros Hl Hs Hid <-. split.
  - rewrite get_health_status by done. rewrite (ready_session_at _ _ _ _ Hl Hs).
    by destruct (ready s).
  - rewrite (get_register_known _ _ l) by done. by rewrite Hs.
Qed.

Lemma refused w id l s adapter p :
  sessions w !! id = Some l → heap w !! l = Some s → ready s = false →
  sessionId p = id → valid p = true →
  fst (post_send adapter p w) =
    Normal (Response 503 (Json [("error", JsonString "Session not ready")])) ∧
  fst (get_send adapter p w) = Normal (Response 503 (Text "⏳ Session not ready")).
Proof.
  intros Hl Hs Hr <- Hp.
  assert (ready_session w (sessionId p) = None) as Hn.
  { rewrite (ready_session_at _ _ _ _ Hl Hs). by rewrite Hr. }
  by rewrite post_send_not_ready, get_send_not_ready.
Qed.

(** X2. The [auth_failure] event of a session's client sets [ready] to
    false and nothing else: the pairing image stays as it was and,
    unlike on [disconnected], [initialize] is not called again.  From
    then on Health answers "initializing", Register still shows the old
    pairing image, and Send is refused with 503 in both forms. *)
Theorem auth_failure_marks_not_ready w id l s msg :
  reachable w → sessions w !! id = Some l → heap w !! l = Some s →
  let w' := step (Emit (client s) "auth_failure" msg) w in
  heap w' = <[l := Session (client s) false (qrDataUrl s)]> (heap w) ∧
  sessions w' = sessions w ∧ clients w' = clients w ∧ pending w' = pending w ∧
  calls w' = calls w ∧
  (∀ q, sessionId q = id →
        fst (get_health q w') = Normal (res_json [("status", JsonString "initializing")]) ∧
        fst (get_register q w') =
          Normal (res_json [("qrDataUrl", json_of_qrDataUrl (qrDataUrl s))])) ∧
  (∀ adapter p, sessionId p = id → valid p = true →
        fst (post_send adapter p w') =
          Normal (Response 503 (Json [("error", JsonString "Session not ready")])) ∧
        fst (get_send adapter p w') = Normal (Response 503 (Text "⏳ Session not ready"))).
Proof.
  intros Hw%reachable_wf Hl Hs w'.
  destruct (wf_session _ _ _ _ Hw Hl Hs) as (Hc & Hcl & Hid & Hlt).
  assert (w' = World (sessions w) (<[l := Session (client s) false (qrDataUrl s)]> (heap w))
                 (clients w) (pending w) (calls w)
                 (console w ++ [ConsoleError (session_line id ": auth failure") [ArgVal msg]]))
    as Hw'.
  { unfold w'. cbn [step]. rewrite Hc at 1.
    rewrite (emit_auth_failure _ _ _ _ _ _ Hcl (wf_renders _ Hw _ _ Hl)).
    cbn [snd]. by rewrite (set_field l s). }
  assert (sessions w' !! id = Some l) as Hl' by (by rewrite Hw').
  assert (heap w' !! l = Some (Session (client s) false (qrDataUrl s))) as Hs'.
  { rewrite Hw'. fields. by apply list_lookup_insert_eq. }
  rewrite Hw' at 1 2 3 4 5. fields. do 5 (split; [done|]). split.
  - intros q Hq. by apply (polls w' id l _ q Hl' Hs').
  - intros adapter p Hq Hp. by apply (refused w' id l _ adapter p Hl' Hs').
Qed.

Lemma auth_failure_marks_not_ready_witness :
  let w' := step (Emit 0 "auth_failure" (JStr "rejected")) paired in
  heap w' = [Session 0 false (Some "data:image/png;base64,AAAA")] ∧
  calls w' = calls paired ∧
  fst (post_send Sent s1 w') =
    Normal (Response 503 (Json [("error", JsonString "Session not ready")])).
Proof.
  destruct (auth_failure_marks_not_ready paired (JStr "s1") 0
              (Session 0 true (Some "data:image/png;base64,AAAA")) (JStr "rejected"))
    as (H1 & _ & _ & _ & H2 & _ & H3).
  - apply reachable_run.
  - reflexivity.
  - reflexivity.
  - split; [exact H1|]. split; [exact H2|]. by apply H3.
Defined.

(** X3. After the [disconnected] event of a session's client, Health
    answers "initializing" for the identifier, Register answers a null
    pairing image, and Send is refused with 503 in both forms, whatever
    the session's state was before. *)
Theorem disconnected_then_polls w id l s reason :
  reachable w → sessions w !! id = Some l → heap w !! l = Some s →
  let w' := step (Emit (client s) "disconnected" reason) w in
  (∀ q, sessionId q = id →
        fst (get_health q w') = Normal (res_json [("status", JsonString "initializing")]) ∧
        fst (get_register q w') = Normal (res_json [("qrDataUrl", JsonNull)])) ∧
  (∀ adapter p, sessionId p = id → valid p = true →
        fst (post_send adapter p w') =
          Normal (Response 503 (Json [("error", JsonString "Session not ready")])) ∧
        fst (get_send adapter p w') = Normal (Response 503 (Text "⏳ Session not ready"))).
Proof.
  intros Hw%reachable_wf Hl Hs w'.
  destruct (wf_session _ _ _ _ Hw Hl Hs) as (Hc & Hcl & Hid & Hlt).
  assert (sessions w' !! id = Some l ∧ heap w' !! l = Some (Session (client s) false None))
    as [Hl' Hs'].
  { unfold w'. destruct s as [c r qd]. cbn [client] in *. subst c. cbn [step].
    rewrite (emit_disconnected _ _ _ _ _ _ Hcl (wf_renders _ Hw _ _ Hl)).
    cbn [snd]. fields. split; [done|].
    rewrite (set_field l _ _ _ Hs). by apply list_lookup_insert_eq. }
  split.
  - intros q Hq. by apply (polls w' id l _ q Hl' Hs').
  - intros adapter p Hq Hp. by apply (refused w' id l _ adapter p Hl' Hs').
Qed.

Lemma disconnected_then_polls_witness :
  let w' := step (Emit 0 "disconnected" (JStr "LOGOUT")) paired in
  fst (get_health s1 w') = Normal (res_json [("status", JsonString "initializing")]) ∧
  fst (get_register s1 w') = Normal (res_json [("qrDataUrl", JsonNull)]).
Proof.
  destruct (disconnected_then_polls paired (JStr "s1") 0
              (Session 0 true (Some "data:image/png;base64,AAAA")) (JStr "LOGOUT"))
    as (H1 & _).
  - apply reachable_run.
  - reflexivity.
  - reflexivity.
  - by apply H1.
Defined.

(** ** The handlers as a whole *)

(** X4. In every world the server can reach, a handler throws only when
    it is Register for a present, unseen identifier that the client
    constructor refuses; it then has only tested the registry and stored
    nothing.  Every other request is answered by its handler: with 400
    exactly when a required field fails the handler's test, which besides
    an absent field and the empty string covers [null], [false] and the
    numbers 0 and NaN, and then the world is left as it was.  Register and
    Health answer only 200 or 400, the two forms of Send only 200, 400,
    503 or 500. *)
Theorem handlers_always_respond adapter r w :
  reachable w →
  (∃ q, r = GetRegister q ∧ truthy (sessionId q) = true ∧
        sessions w !! sessionId q = None ∧ accepted (sessionId q) = false ∧
        handle adapter r w =
          (Throw (refusal (sessionId q)), logged w [SessionsHas (sessionId q)] [])) ∨
  (∃ resp,
     fst (handle adapter r w) = Normal resp ∧
     (status resp = 400 ↔ required r = false) ∧
     (required r = false → snd (handle adapter r w) = w) ∧
     status resp ∈ (match r with
                    | GetRegister _ | GetHealth _ => [200; 400]
                    | PostSend _ | GetSend _ => [200; 400; 503; 500]
                    end)).
Proof.
  intros Hw. destruct r as [q|q|p|p]; cbn [handle required].
  - destruct (truthy (sessionId q)) eqn:Hq.
    + destruct (sessions w !! sessionId q) as [l|] eqn:Hl.
      * right. rewrite (get_register_known _ _ l) by done. eexists. split; [done|].
        cbn. split; [split; [lia|done]|]. split; [done|set_solver].
      * destruct (accepted (sessionId q)) eqn:Hacc.
        -- right. rewrite get_register_fresh by done. eexists. split; [done|].
           cbn. split; [split; [lia|done]|]. split; [done|set_solver].
        -- left. exists q. by rewrite get_register_refused.
    + right. rewrite get_register_missing by done. eexists. split; [done|].
      cbn. split; [done|]. split; [done|set_solver].
  - right. destruct (truthy (sessionId q)) eqn:Hq.
    + rewrite get_health_status by done. eexists. split; [done|].
      cbn. split; [split; [lia|done]|]. split; [done|set_solver].
    + rewrite get_health_missing by done. eexists. split; [done|].
      cbn. split; [done|]. split; [done|set_solver].
  - right. destruct (valid p) eqn:Hp.
    + destruct (ready_session w (sessionId p)) as [s|] eqn:Hr.
      * rewrite (post_send_ready _ _ _ s) by done.
        rewrite (ready_session_renders w _ s) by auto.
        destruct (try_failure adapter (to p)); eexists; (split; [done|]);
          cbn; (split; [split; [lia|done]|]); (split; [done|set_solver]).
      * rewrite post_send_not_ready by done. eexists. split; [done|].
        cbn. split; [split; [lia|done]|]. split; [done|set_solver].
    + rewrite post_send_invalid by done. eexists. split; [done|].
      cbn. split; [done|]. split; [done|set_solver].
  - right. destruct (valid p) eqn:Hp.
    + destruct (ready_session w (sessionId p)) as [s|] eqn:Hr.
      * rewrite (get_send_ready _ _ _ s) by done.
        destruct (try_failure adapter (to p)); eexists; (split; [done|]);
          cbn; (split; [split; [lia|done]|]); (split; [done|set_solver]).
      * rewrite get_send_not_ready by done. eexists. split; [done|].
        cbn. split; [split; [lia|done]|]. split; [done|set_solver].
    + rewrite get_send_invalid by done. eexists. split; [done|].
      cbn. split; [done|]. split; [done|set_solver].
Qed.

Lemma handlers_always_respond_witness :
  handle Sent (GetRegister (Params (JStr "a b") JUndefined JUndefined)) paired =
    (Throw InvalidClientId, logged paired [SessionsHas (JStr "a b")] []) ∧
  ∃ resp,
    fst (handle Sent (PostSend (Params (JStr "s1") (JStr "15551234567") (JNum "0"))) paired) =
      Normal resp ∧
    status resp = 400 ∧
    snd (handle Sent (PostSend (Params (JStr "s1") (JStr "15551234567") (JNum "0"))) paired) =
      paired.
Proof.
  split.
  - destruct (handlers_always_respond Sent
                (GetRegister (Params (JStr "a b") JUndefined JUndefined)) paired
                (reachable_run _)) as [(q & [= <-] & _ & _ & _ & H)|(resp & H & _)].
    + exact H.
    + exfalso. vm_compute in H. discriminate H.
  - destruct (handlers_always_respond Sent
                (PostSend (Params (JStr "s1") (JStr "15551234567") (JNum "0"))) paired
                (reachable_run _)) as [(q & Hq & _)|(resp & H1 & H2 & H3 & _)];
      [discriminate Hq|].
    exists resp. split; [exact H1|]. split; [by apply H2|by apply H3].
Defined.

(** X5. The registry, the session objects, the clients and the suspended
    listeners change under a request only when it is a Register for an
    identifier the registry does not hold yet.  Health, both forms of
    Send, and Register for a known identifier leave them as they were; in
    particular a Send to an unknown identifier creates no session. *)
Theorem only_register_creates adapter r w :
  ¬ registers_new r w → store (snd (handle adapter r w)) = store w.
Proof.
  intros Hn.
  destruct (handle_logged adapter r w) as [(cs & ls & -> & _)|(q & -> & Hq & Hl & _ & _)];
    [done|].
  destruct Hn. by exists q.
Qed.

Lemma only_register_creates_witness :
  store (snd (handle Sent (PostSend (Params (JStr "s2") (JStr "1") (JStr "hi"))) paired)) =
  store paired.
Proof.
  apply (only_register_creates Sent (PostSend (Params (JStr "s2") (JStr "1") (JStr "hi"))) paired).
  intros (q & Hq & _). discriminate Hq.
Defined.

(** X6. In both forms, Send calls the adapter's [sendMessage] exactly once
    when the three fields are present, the session is ready and the
    recipient can be rendered, also when the adapter then fails (there is
    no retry), and not at all otherwise.  In every world the server can
    reach it answers 200 exactly when that one call succeeded and 503
    exactly when the fields are present and the session is not ready. *)
Theorem send_calls_adapter_once adapter p w :
  ∀ send, send = post_send ∨ send = get_send →
  length (sends (drop (length (calls w)) (calls (snd (send adapter p w))))) =
    (if valid p && bool_decide (is_Some (ready_session w (sessionId p))) && renders (to p)
     then 1 else 0) ∧
  (reachable w ∨ renders (sessionId p) = true →
   ∃ resp,
     fst (send adapter p w) = Normal resp ∧
     (status resp = 200 ↔
        valid p = true ∧ is_Some (ready_session w (sessionId p)) ∧
        renders (to p) = true ∧ adapter = Sent) ∧
     (status resp = 503 ↔ valid p = true ∧ ready_session w (sessionId p) = None)).
Proof.
  intros send Hsend. destruct (valid p) eqn:Hp.
  - destruct (ready_session w (sessionId p)) as [s|] eqn:Hr.
    + split.
      * assert (∃ r ls, send adapter p w =
                  (r, logged w (SessionsGet (sessionId p) :: try_calls s p) ls))
          as (r & ls & ->).
        { destruct Hsend as [-> | ->];
            [by apply post_send_ready_logged|by apply get_send_ready_logged]. }
        cbn [snd]. rewrite new_calls. unfold try_calls.
        rewrite bool_decide_eq_true_2 by eauto. by destruct (renders (to p)).
      * intros Hw. pose proof (ready_session_renders _ _ _ Hw Hr) as Hid.
        assert (∃ resp, fst (send adapter p w) = Normal resp ∧
                  (status resp = 200 ↔ try_failure adapter (to p) = None) ∧
                  status resp ≠ 503) as (resp & Hresp & H200 & H503).
        { destruct Hsend as [-> | ->].
          - rewrite (post_send_ready _ _ _ s), Hid by done.
            destruct (try_failure adapter (to p)); eexists; (split; [done|]); cbn;
              (split; [|lia]); split; (done || lia).
          - rewrite (get_send_ready _ _ _ s) by done.
            destruct (try_failure adapter (to p)); eexists; (split; [done|]); cbn;
              (split; [|lia]); split; (done || lia). }
        exists resp. split; [done|]. split.
        -- rewrite H200. unfold try_failure.
           destruct (renders (to p)); [destruct adapter|]; split; try done;
             try (by intros (_ & _ & ? & ?)); by eauto.
        -- split; [done|]. by intros [_ ?].
    + assert (∃ resp, send adapter p w = (Normal resp, logged w [SessionsGet (sessionId p)] []) ∧
                      status resp = 503) as (resp & -> & H503).
      { destruct Hsend as [-> | ->].
        - rewrite post_send_not_ready by done. by eexists.
        - rewrite get_send_not_ready by done. by eexists. }
      cbn [fst snd]. rewrite new_calls. split; [done|]. intros _.
      exists resp. split; [done|]. rewrite H503. split.
      * split; [lia|]. by intros (_ & [? ?] & _).
      * done.
  - assert (∃ resp, send adapter p w = (Normal resp, w) ∧ status resp = 400)
      as (resp & -> & H400).
    { destruct Hsend as [-> | ->].
      - rewrite post_send_invalid by done. by eexists.
      - rewrite get_send_invalid by done. by eexists. }
    cbn [fst snd]. rewrite new_calls_none. split; [done|]. intros _.
    exists resp. split; [done|]. rewrite H400. split.
    + split; [lia|]. by intros (? & _).
    + split; [lia|]. by intros (? & _).
Qed.

Lemma send_calls_adapter_once_witness :
  length (sends (drop (length (calls paired))
                   (calls (snd (get_send (Rejected (Error "socket closed")) s1 paired))))) = 1 ∧
  length (sends (drop (length (calls paired))
                   (calls (snd (post_send Sent (Params (JStr "s1") (JBare 7) (JStr "hi"))
                                  paired))))) = 0.
Proof.
  split.
  - destruct (send_calls_adapter_once (Rejected (Error "socket closed")) s1 paired get_send)
      as [H _]; [right; reflexivity|exact H].
  - destruct (send_calls_adapter_once Sent (Params (JStr "s1") (JBare 7) (JStr "hi")) paired
                post_send) as [H _]; [left; reflexivity|exact H].
Defined.

(** ** Sessions apart *)

Lemma wf_heap_client w l s : wf w → heap w !! l = Some s → client s = l.
Proof.
  intros Hw Hs. assert (l < length (clients w)) as Hlt.
  { rewrite <- (wf_length _ Hw). by apply lookup_lt_Some in Hs. }
  apply lookup_lt_is_Some in Hlt as [cl Hcl].
  destruct (wf_clients _ Hw _ _ Hcl) as [_ Hl].
  destruct (wf_sessions _ Hw _ _ Hl) as [(s' & Hs' & Hc) _]. congruence.
Qed.

(** X7. Sessions are never shared: in every world the server can reach,
    two identifiers with the same session object are the same identifier,
    different session objects hold different clients, and the client of
    the session registered for an identifier was constructed with that
    identifier as its [clientId]. *)
Theorem sessions_are_not_shared w :
  reachable w →
  (∀ id1 id2 l, sessions w !! id1 = Some l → sessions w !! id2 = Some l → id1 = id2) ∧
  (∀ l1 l2 x1 x2, heap w !! l1 = Some x1 → heap w !! l2 = Some x2 →
                  client x1 = client x2 → l1 = l2) ∧
  (∀ id l x, sessions w !! id = Some l → heap w !! l = Some x →
             clientId <$> clients w !! client x = Some id).
Proof.
  intros Hw%reachable_wf. split; [|split].
  - intros id1 id2 l H1 H2.
    destruct (wf_sessions _ Hw _ _ H1) as [_ Hc1].
    destruct (wf_sessions _ Hw _ _ H2) as [_ Hc2].
    rewrite Hc1 in Hc2. by injection Hc2.
  - intros l1 l2 x1 x2 H1 H2 Hc.
    rewrite <- (wf_heap_client _ _ _ Hw H1), <- (wf_heap_client _ _ _ Hw H2). done.
  - intros id l x Hl Hx. destruct (wf_session _ _ _ _ Hw Hl Hx) as (-> & -> & _). done.
Qed.

Lemma sessions_are_not_shared_witness :
  (∀ id1 id2 l, sessions two_sessions !! id1 = Some l → sessions two_sessions !! id2 = Some l →
                id1 = id2) ∧
  (∀ l1 l2 x1 x2, heap two_sessions !! l1 = Some x1 → heap two_sessions !! l2 = Some x2 →
                  client x1 = client x2 → l1 = l2) ∧
  (∀ id l x, sessions two_sessions !! id = Some l → heap two_sessions !! l = Some x →
             clientId <$> clients two_sessions !! client x = Some id).
Proof.
  apply (sessions_are_not_shared two_sessions). apply reachable_run.
Defined.

(** ** The shape of a step *)

Lemma emit_shape w c event arg :
  wf w →
  ∃ f ps cs ls,
    snd (emit c event arg w) =
      World (sessions w) (alter f c (heap w)) (clients w) (pending w ++ ps)
        (calls w ++ cs) (console w ++ ls) ∧
    (∀ s, client (f s) = client s) ∧
    (∀ x, x ∈ cs → routine w x).
Proof.
  intros Hw.
  assert (∃ f ps cs ls, w =
            World (sessions w) (alter f c (heap w)) (clients w) (pending w ++ ps)
              (calls w ++ cs) (console w ++ ls) ∧
            (∀ s : session, client (f s) = client s) ∧ (∀ x, x ∈ cs → routine w x)) as Hsame.
  { exists id, [], [], []. rewrite list_alter_id, !app_nil_r by done.
    split; [by destruct w|]. split; [done|]. by intros x Hx%elem_of_nil. }
  destruct (clients w !! c) as [[sid hs]|] eqn:Hc; [|by rewrite emit_no_client].
  destruct (wf_clients _ Hw _ _ Hc) as [[= ->] Hs]. cbn [clientId] in Hs.
  change (clients w !! c = Some (wired c c sid)) in Hc.
  pose proof (wf_renders _ Hw _ _ Hs) as Hid.
  destruct (decide (event ∈ ["qr"; "ready"; "auth_failure"; "disconnected"])) as [Hev|Hev];
    [|by rewrite (emit_other _ _ _ _ _ _ _ Hc)].
  clear Hsame.
  repeat (apply elem_of_cons in Hev as [->|Hev]); [..|by apply elem_of_nil in Hev].
  - rewrite (emit_qr _ _ _ _ _ _ Hc). exists id, [QrTask c sid], [QRCodeToDataURL arg], [].
    rewrite list_alter_id, app_nil_r by done. split; [done|]. split; [done|].
    by intros x ->%list_elem_of_singleton.
  - rewrite (emit_ready _ _ _ _ _ _ Hc Hid). exists (set_ready true), [], [].
    eexists. split; [cbn [snd]; f_equal; first [reflexivity|symmetry; apply app_nil_r]|].
    split; [done|]. by intros x Hx%elem_of_nil.
  - rewrite (emit_auth_failure _ _ _ _ _ _ Hc Hid). exists (set_ready false), [], [].
    eexists. split; [cbn [snd]; f_equal; first [reflexivity|symmetry; apply app_nil_r]|].
    split; [done|]. by intros x Hx%elem_of_nil.
  - rewrite (emit_disconnected _ _ _ _ _ _ Hc Hid).
    exists (set_qrDataUrl None ∘ set_ready false), [], [ClientInitialize c].
    eexists. split; [cbn [snd]; f_equal; first [reflexivity|symmetry; apply app_nil_r]|].
    split; [done|]. intros x ->%list_elem_of_singleton. cbn. by apply lookup_lt_Some in Hc.
Qed.

Lemma delete_out_of_range {A} (l : list A) i : l !! i = None → delete i l = l.
Proof.
  intros Hi%lookup_ge_None. rewrite delete_take_drop.
  rewrite take_ge, drop_ge by lia. apply app_nil_r.
Qed.

Lemma settle_shape w k r :
  wf w →
  ∃ f ls,
    snd (settle_qr k r w) =
      World (sessions w) (alter f (from_option task_session 0 (pending w !! k)) (heap w))
        (clients w) (delete k (pending w)) (calls w) (console w ++ ls) ∧
    (∀ s, client (f s) = client s).
Proof.
  intros Hw. unfold settle_qr. destruct (pending w !! k) as [t|] eqn:Hk.
  - pose proof (wf_renders _ Hw _ _ (wf_pending _ Hw _ _ Hk)) as Hid.
    destruct r as [dataUrl|err].
    + rewrite resume_qr_success by done. fields. by do 2 eexists.
    + rewrite resume_qr_failure by done. unfold logged. fields. exists id. eexists.
      rewrite list_alter_id, app_nil_r by done. done.
  - exists id, []. rewrite list_alter_id, app_nil_r by done. cbn [snd].
    rewrite delete_out_of_range by done. by destruct w.
Qed.

Lemma routine_try_calls w key s p :
  wf w → valid p = true → ready_session w (sessionId p) = Some s →
  ∀ x, x ∈ SessionsGet key :: try_calls s p → routine w x.
Proof.
  intros Hw Hp Hr x [->|Hx]%elem_of_cons; [done|].
  unfold try_calls in Hx. destruct (renders (to p)); [|by apply elem_of_nil in Hx].
  apply list_elem_of_singleton in Hx as ->. cbn. split; [|split].
  - unfold ready_session, session_of in Hr.
    destruct (sessions w !! sessionId p) as [l|] eqn:Hl; cbn in Hr; [|done].
    destruct (heap w !! l) as [s'|] eqn:Hs'; cbn in Hr; [|done].
    destruct (ready s'); [|done]. injection Hr as ->.
    destruct (wf_session _ _ _ _ Hw Hl Hs') as (-> & _ & _ & Hlt).
    by rewrite <- (wf_length _ Hw).
  - unfold valid in Hp. by apply andb_prop in Hp as [_ ?].
  - exists (to p). split; [|done].
    unfold valid in Hp. by apply andb_prop in Hp as [[_ ?]%andb_prop _].
Qed.

Lemma handle_shape adapter r w :
  wf w →
  (∃ cs ls, snd (handle adapter r w) = logged w cs ls ∧ ∀ x, x ∈ cs → routine w x) ∨
  (∃ id, snd (handle adapter r w) =
           World (<[id := length (heap w)]> (sessions w))
             (heap w ++ [Session (length (clients w)) false None])
             (clients w ++ [wired (length (heap w)) (length (clients w)) id])
             (pending w)
             (calls w ++ creation id (length (heap w)) (length (clients w)))
             (console w)).
Proof.
  intros Hw.
  assert (∀ cs, Forall (routine w) cs → ∀ x, x ∈ cs → routine w x) as Hall.
  { intros cs Hcs x Hx. induction Hcs as [|y cs Hy Hcs IH]; [by apply elem_of_nil in Hx|].
    apply elem_of_cons in Hx as [->|Hx]; auto. }
  assert (∃ cs ls, w = logged w cs ls ∧ ∀ x, x ∈ cs → routine w x) as Hsame.
  { exists [], []. rewrite logged_nil. split; [done|]. by intros x Hx%elem_of_nil. }
  destruct r as [q|q|p|p]; cbn [handle].
  - destruct (truthy (sessionId q)) eqn:Hq; [|rewrite get_register_missing by done; by left].
    destruct (sessions w !! sessionId q) as [l|] eqn:Hl.
    + left. rewrite (get_register_known _ _ l) by done. do 2 eexists. split; [done|].
      apply Hall. by repeat constructor.
    + destruct (accepted (sessionId q)) eqn:Hacc.
      * right. exists (sessionId q).
        by rewrite get_register_fresh, (initSession_fresh _ _ Hl Hacc).
      * left. rewrite get_register_refused by done. do 2 eexists. split; [done|].
        apply Hall. by repeat constructor.
  - left. destruct (truthy (sessionId q)) eqn:Hq; [|by rewrite get_health_missing].
    rewrite get_health_status by done. do 2 eexists. split; [done|].
    apply Hall. by repeat constructor.
  - left. destruct (valid p) eqn:Hp; [|by rewrite post_send_invalid].
    destruct (ready_session w (sessionId p)) as [s|] eqn:Hr.
    + destruct (post_send_ready_logged adapter p w s Hp Hr) as (r & ls & ->).
      do 2 eexists. split; [done|]. by apply routine_try_calls.
    + rewrite post_send_not_ready by done. do 2 eexists. split; [done|].
      apply Hall. by repeat constructor.
  - left. destruct (valid p) eqn:Hp; [|by rewrite get_send_invalid].
    destruct (ready_session w (sessionId p)) as [s|] eqn:Hr.
    + destruct (get_send_ready_logged adapter p w s Hp Hr) as (r & ls & ->).
      do 2 eexists. split; [done|]. by apply routine_try_calls.
    + rewrite get_send_not_ready by done. do 2 eexists. split; [done|].
      apply Hall. by repeat constructor.
Qed.

(** What a step adds to the recorded calls and to the clients. *)
Lemma step_shape i w :
  wf w →
  ∃ cs,
    calls (step i w) = calls w ++ cs ∧
    ((clients (step i w) = clients w ∧ ∀ x, x ∈ cs → routine w x) ∨
     (∃ id, clients (step i w) = clients w ++ [wired (length (clients w)) (length (clients w)) id] ∧
            cs = creation id (length (clients w)) (length (clients w)))).
Proof.
  intros Hw. destruct i as [r adapter|c event arg|k r]; cbn [step].
  - destruct (handle_shape adapter r w Hw) as [(cs & ls & -> & Hcs)|(id & ->)].
    + exists cs. split; [done|]. by left.
    + fields. eexists. split; [done|]. right. exists id. by rewrite (wf_length _ Hw).
  - destruct (emit_shape w c event arg Hw) as (f & ps & cs & ls & -> & _ & Hcs).
    exists cs. split; [done|]. by left.
  - destruct (settle_shape w k r Hw) as (f & ls & -> & _). exists []. fields.
    rewrite app_nil_r. split; [done|]. left. split; [done|]. by intros x Hx%elem_of_nil.
Qed.

(** ** Events and sessions *)

(** X8. An event of a client touches only the session of that client:
    every session object held with another client is left exactly as it
    was, and the registry and the clients do not change.  Likewise the
    resumption of a suspended [qr] listener changes no session but its
    own. *)
Theorem events_touch_one_session w :
  reachable w →
  (∀ c event arg,
     sessions (step (Emit c event arg) w) = sessions w ∧
     clients (step (Emit c event arg) w) = clients w ∧
     ∀ l x, heap w !! l = Some x → client x ≠ c →
            heap (step (Emit c event arg) w) !! l = Some x) ∧
  (∀ k r t,
     pending w !! k = Some t →
     sessions (step (QrSettled k r) w) = sessions w ∧
     clients (step (QrSettled k r) w) = clients w ∧
     ∀ l x, heap w !! l = Some x → l ≠ task_session t →
            heap (step (QrSettled k r) w) !! l = Some x).
Proof.
  intros Hw%reachable_wf. split.
  - intros c event arg. cbn [step].
    destruct (emit_shape w c event arg Hw) as (f & ps & cs & ls & -> & _ & _). fields.
    split; [done|]. split; [done|]. intros l x Hx Hc.
    rewrite (wf_heap_client _ _ _ Hw Hx) in Hc. by rewrite list_lookup_alter_ne.
  - intros k r t Hk. cbn [step].
    destruct (settle_shape w k r Hw) as (f & ls & -> & _). fields. rewrite Hk. cbn.
    split; [done|]. split; [done|]. intros l x Hx Hl. by rewrite list_lookup_alter_ne.
Qed.

Lemma events_touch_one_session_witness :
  heap (step (Emit 1 "disconnected" (JStr "LOGOUT")) two_sessions) !! 0 =
  Some (Session 0 true (Some "data:image/png;base64,AAAA")).
Proof.
  destruct (events_touch_one_session two_sessions (reachable_run _)) as [H _].
  destruct (H 1 "disconnected" (JStr "LOGOUT")) as (_ & _ & H').
  apply (H' 0 (Session 0 true (Some "data:image/png;base64,AAAA"))).
  - reflexivity.
  - cbn. lia.
Defined.

(** X9. An event the server registers no listener for has no effect at
    all, and neither has an event of a client that does not exist. *)
Theorem other_events_are_ignored w c event arg :
  reachable w →
  event ∉ ["qr"; "ready"; "auth_failure"; "disconnected"] ∨ clients w !! c = None →
  step (Emit c event arg) w = w.
Proof.
  intros Hw%reachable_wf [Hev|Hc]; cbn [step].
  - destruct (clients w !! c) as [[id hs]|] eqn:Hc; [|by rewrite emit_no_client].
    destruct (wf_clients _ Hw _ _ Hc) as [[= ->] _].
    change (clients w !! c = Some (wired c c id)) in Hc.
    by rewrite (emit_other _ _ _ _ _ _ _ Hc).
  - by rewrite emit_no_client.
Qed.

Lemma other_events_are_ignored_witness :
  step (Emit 0 "message" (JStr "hello")) paired = paired.
Proof.
  apply (other_events_are_ignored paired 0 "message" (JStr "hello")).
  - apply reachable_run.
  - left. intros H. repeat (apply elem_of_cons in H as [H|H]; [discriminate H|]).
    by apply elem_of_nil in H.
Defined.

(** X10. A pairing image that is encoded late is still stored.  When a
    [qr] listener is suspended and its session's client emits
    [disconnected], the pairing image is cleared; when the listener is
    then resumed with the encoded image, that image is stored in the
    session although it has been disconnected since, and Register
    answers it. *)
Theorem late_qr_outlives_disconnect w k t reason dataUrl :
  reachable w → pending w !! k = Some t →
  ∃ s,
    heap w !! task_session t = Some s ∧
    let w1 := step (Emit (client s) "disconnected" reason) w in
    let w2 := step (QrSettled k (inl dataUrl)) w1 in
    heap w1 !! task_session t = Some (Session (client s) false None) ∧
    heap w2 !! task_session t = Some (Session (client s) false (Some dataUrl)) ∧
    ∀ q, sessionId q = task_sid t →
         fst (get_register q w2) = Normal (res_json [("qrDataUrl", JsonString dataUrl)]).
Proof.
  intros Hw%reachable_wf Hk. pose proof (wf_pending _ Hw _ _ Hk) as Hl.
  destruct (wf_sessions _ Hw _ _ Hl) as [([c r qd] & Hs & Hc) Hcl]. cbn [client] in Hc. subst c.
  pose proof (wf_renders _ Hw _ _ Hl) as Hid.
  exists (Session (task_session t) r qd). split; [done|]. cbn [client step].
  rewrite (emit_disconnected _ _ _ _ _ _ Hcl Hid). cbn [snd].
  rewrite (set_field _ _ _ _ Hs). cbn.
  assert (task_session t < length (heap w)) as Hlt by (by apply lookup_lt_Some in Hs).
  unfold settle_qr. fields. rewrite Hk, resume_qr_success by done. cbn [snd]. fields.
  split; [by apply list_lookup_insert_eq|].
  assert (alter (set_qrDataUrl (Some dataUrl)) (task_session t)
            (<[task_session t := Session (task_session t) false None]> (heap w)) !! task_session t =
          Some (Session (task_session t) false (Some dataUrl))) as Hnew.
  { rewrite list_lookup_alter_eq, list_lookup_insert_eq by done. done. }
  split; [done|]. intros q Hq.
  rewrite (get_register_known q _ (task_session t)); fields.
  - by rewrite list_lookup_alter_eq, list_lookup_insert_eq by done.
  - rewrite Hq. by apply (wf_truthy _ Hw _ _ Hl).
  - by rewrite Hq.
Qed.

Lemma late_qr_outlives_disconnect_witness :
  ∃ s,
    heap awaiting !! 0 = Some s ∧
    let w1 := step (Emit (client s) "disconnected" (JStr "LOGOUT")) awaiting in
    let w2 := step (QrSettled 0 (inl "data:image/png;base64,AAAA")) w1 in
    heap w1 !! 0 = Some (Session (client s) false None) ∧
    heap w2 !! 0 = Some (Session (client s) false (Some "data:image/png;base64,AAAA")) ∧
    ∀ q, sessionId q = JStr "s1" →
         fst (get_register q w2) =
           Normal (res_json [("qrDataUrl", JsonString "data:image/png;base64,AAAA")]).
Proof.
  apply (late_qr_outlives_disconnect awaiting 0 (QrTask 0 (JStr "s1")) (JStr "LOGOUT")
           "data:image/png;base64,AAAA").
  - apply reachable_run.
  - reflexivity.
Defined.

(** ** The record of calls *)

Lemma elem_of_sends c chatId txt cs :
  (c, chatId, txt) ∈ sends cs ↔ ClientSendMessage c chatId txt ∈ cs.
Proof.
  unfold sends. rewrite list_elem_of_omap. split.
  - intros (x & Hx & Heq). destruct x; try done. by injection Heq as -> -> ->.
  - intros Hx. by exists (ClientSendMessage c chatId txt).
Qed.

Lemma step_clients i w : wf w → (length (clients w) ≤ length (clients (step i w)))%nat.
Proof.
  intros Hw. destruct (step_shape i w Hw) as (cs & _ & [[-> _]|(id & -> & _)]); [done|].
  rewrite length_app. lia.
Qed.

(** X11. Over the whole life of the server, every message handed to the
    adapter went to a client that exists, with a text that passed the
    handler's test and a recipient made of a caller-supplied value that
    passed the test followed by the suffix "@c.us". *)
Theorem every_send_was_addressed w c chatId txt :
  reachable w →
  (c, chatId, txt) ∈ sends (calls w) →
  c < length (clients w) ∧ truthy txt = true ∧
  ∃ to, truthy to = true ∧ chatId = ToString to +:+ suffix.
Proof.
  intros Hr. revert c chatId txt. induction Hr as [|i w Hr IH]; intros c chatId txt.
  - by intros ?%elem_of_nil.
  - pose proof (reachable_wf _ Hr) as Hw. pose proof (step_clients i w Hw) as Hlen.
    destruct (step_shape i w Hw) as (cs & -> & Hcs).
    rewrite elem_of_sends, elem_of_app, <- elem_of_sends. intros [Hold|Hnew].
    + destruct (IH _ _ _ Hold) as (? & ? & ?). split; [lia|done].
    + destruct Hcs as [[_ Hcs]|(id & _ & ->)].
      * destruct (Hcs _ Hnew) as (? & ? & ?). split; [lia|done].
      * repeat (apply elem_of_cons in Hnew as [Hnew|Hnew]; [discriminate Hnew|]).
        by apply elem_of_nil in Hnew.
Qed.

Lemma every_send_was_addressed_witness :
  0 < length (clients (step (Http (PostSend s1) Sent) paired)) ∧
  truthy (JStr "hi") = true ∧
  ∃ to, truthy to = true ∧ "15551234567@c.us" = ToString to +:+ suffix.
Proof.
  apply (every_send_was_addressed (step (Http (PostSend s1) Sent) paired) 0
           "15551234567@c.us" (JStr "hi")).
  - apply reachable_step, reachable_run.
  - vm_compute. constructor.
Defined.

(** X12. Every client the server holds was constructed with the
    identifier it is registered under and has had [initialize] called on
    it; conversely [initialize] is only ever called on a client the
    server holds, and every client constructed is held with the
    identifier it was constructed for. *)
Theorem every_client_was_initialized w :
  reachable w →
  (∀ c cl, clients w !! c = Some cl →
           NewClient c (clientId cl) ∈ calls w ∧ ClientInitialize c ∈ calls w) ∧
  (∀ c, ClientInitialize c ∈ calls w → c < length (clients w)) ∧
  (∀ c id, NewClient c id ∈ calls w → clientId <$> clients w !! c = Some id).
Proof.
  intros Hr. induction Hr as [|i w Hr (IH1 & IH2 & IH3)].
  - split; [|split].
    + intros c cl Hc. cbn in Hc. by rewrite lookup_nil in Hc.
    + by intros c ?%elem_of_nil.
    + by intros c id ?%elem_of_nil.
  - pose proof (reachable_wf _ Hr) as Hw. pose proof (step_clients i w Hw) as Hlen.
    destruct (step_shape i w Hw) as (cs & -> & [[-> Hcs]|(id & -> & ->)]).
    + split; [|split].
      * intros c cl Hc. destruct (IH1 c cl Hc). rewrite !elem_of_app. auto.
      * intros c [Hc|Hc]%elem_of_app; [by apply IH2|]. by apply (Hcs _ Hc).
      * intros c id' [Hc|Hc]%elem_of_app; [by apply IH3|]. by destruct (Hcs _ Hc).
    + split; [|split].
      * intros c cl [Hc|[-> <-]]%lookup_snoc_Some.
        -- destruct Hc as [_ Hc]. destruct (IH1 c cl Hc). rewrite !elem_of_app. auto.
        -- rewrite !elem_of_app. split; right; unfold creation; repeat constructor.
      * intros c [Hc|Hc]%elem_of_app.
        -- apply IH2 in Hc. rewrite length_app. lia.
        -- rewrite length_app. cbn.
           repeat (apply elem_of_cons in Hc as [Hc|Hc]; [try discriminate Hc|]);
             [injection Hc as ->; lia|by apply elem_of_nil in Hc].
      * intros c id' [Hc|Hc]%elem_of_app.
        -- pose proof (IH3 _ _ Hc) as Hid.
           destruct (clients w !! c) as [cl|] eqn:Hcl; [|done].
           by rewrite (lookup_app_l_Some _ _ _ _ Hcl).
        -- repeat (apply elem_of_cons in Hc as [Hc|Hc]; [try discriminate Hc|]);
             [|by apply elem_of_nil in Hc].
           injection Hc as -> ->. by rewrite lookup_app_r, Nat.sub_diag by lia.
Qed.

Lemma every_client_was_initialized_witness :
  (∀ c cl, clients two_sessions !! c = Some cl →
           NewClient c (clientId cl) ∈ calls two_sessions ∧
           ClientInitialize c ∈ calls two_sessions) ∧
  (∀ c, ClientInitialize c ∈ calls two_sessions → c < length (clients two_sessions)) ∧
  (∀ c id, NewClient c id ∈ calls two_sessions →
           clientId <$> clients two_sessions !! c = Some id).
Proof.
  apply (every_client_was_initialized two_sessions). apply reachable_run.
Defined.
